(** * The catalog-access client of containercraft

    A shallow embedding of [backend/services/modpack_service.py]: the
    time-to-live cache, the sliding-window rate limiter, the response
    normalizers and the [ModpackService] request pipeline with its fallback
    to the static suggestion list, followed by the properties established
    about them.

    Conventions of the embedding.
    - Instants and durations are rationals, in seconds.  [time.time()] and
      [datetime.now()] both read the one clock of the [World].
    - A decoded JSON document is a [json] value; Python's [None] is [JNull].
      Numbers are the integers.
    - [str] is [string], the text in its UTF-8 encoding.  [str.lower] and
      the arithmetic of [datetime] are code of the interpreter: they are
      parameters of the model, with the laws that hold of them.
    - A coroutine is a function of the service state and the world which
      returns its result together with the new state and world.  A raised
      exception is the [Raise] result; the state changes made before the
      raise are kept, as in Python. *)

From Stdlib Require Import QArith Lqa Ascii.
From stdpp Require Import gmap strings list sorting pretty.

Set Warnings "-register-all".
Local Open Scope Z_scope.

(** ** Exceptions *)

(** The exception classes that the service defines, the builtin ones its
    code can raise, and the three [httpx] classes that [_make_request]
    handles ([HTTPError] stands for any [httpx.HTTPError] that is neither a
    connect error nor a timeout). *)
Inductive exc_class :=
  | ModpackServiceError
  | APIConnectionError
  | APIRateLimitError
  | ModpackNotFoundError
  | KeyError
  | TypeError
  | AttributeError
  | IndexError
  | ValueError
  | OverflowError
  | ValidationError
  | ConnectError
  | TimeoutException
  | HTTPError.

(** The text of an exception.  [Fmt p t] is the f-string [f"p{e}"] where
    [t] is the text of [e]; [Opaque] is a text chosen by the interpreter or
    by a library. *)
Inductive msg :=
  | Lit (s : string)
  | Fmt (prefix : string) (rest : msg)
  | Opaque.

(** An exception object: its class, [str(e)] and [e.__context__]. *)
Inductive exn :=
  | Exception (cls : exc_class) (message : msg) (context : option exn).

Definition exn_class (e : exn) : exc_class :=
  match e with Exception c _ _ => c end.

Definition str_exn (e : exn) : msg :=
  match e with Exception _ m _ => m end.

Definition exn_context (e : exn) : option exn :=
  match e with Exception _ _ c => c end.

Inductive result (A : Type) :=
  | Ok (a : A)
  | Raise (e : exn).
Arguments Ok {A} a.
Arguments Raise {A} e.

Definition result_bind {A B} (r : result A) (k : A -> result B) : result B :=
  match r with
  | Ok a => k a
  | Raise e => Raise e
  end.

Notation "'let?' x ':=' r 'in' k" := (result_bind r (fun x => k))
  (at level 10, x name, r at level 100, k at level 200).

Definition is_ok {A} (r : result A) : bool :=
  match r with Ok _ => true | Raise _ => false end.

Fixpoint traverse {A B} (f : A -> result B) (l : list A) : result (list B) :=
  match l with
  | [] => Ok []
  | x :: l' =>
      let? y := f x in
      let? ys := traverse f l' in
      Ok (y :: ys)
  end.

(** ** The Python values and operations the service uses *)

Module Py.

Inductive json :=
  | JNull
  | JBool (b : bool)
  | JNum (n : Z)
  | JStr (s : string)
  | JArr (items : list json)
  | JObj (items : list (string * json)).

(** [v is None] *)
Definition is_None (v : json) : bool :=
  match v with JNull => true | _ => false end.

(** [bool(v)] *)
Definition truthy (v : json) : bool :=
  match v with
  | JNull => false
  | JBool b => b
  | JNum n => negb (n =? 0)
  | JStr s => negb (String.eqb s "")
  | JArr l => negb (Nat.eqb (length l) 0)
  | JObj l => negb (Nat.eqb (length l) 0)
  end.

(** The value bound to [k] in the items of a dict. *)
Fixpoint assoc {V} (k : string) (kvs : list (string * V)) : option V :=
  match kvs with
  | [] => None
  | (k', v) :: kvs' => if String.eqb k k' then Some v else assoc k kvs'
  end.

Definition repr_str (s : string) : string := "'" +:+ s +:+ "'".

(** [d[k]] for a string key [k] *)
Definition subscript (d : json) (k : string) : result json :=
  match d with
  | JObj kvs =>
      match assoc k kvs with
      | Some v => Ok v
      | None => Raise (Exception KeyError (Lit (repr_str k)) None)
      end
  | _ => Raise (Exception TypeError Opaque None)
  end.

(** [d.get(k, dflt)] *)
Definition get (d : json) (k : string) (dflt : json) : result json :=
  match d with
  | JObj kvs => Ok (default dflt (assoc k kvs))
  | _ => Raise (Exception AttributeError Opaque None)
  end.

(** [list(v)]: the elements a [for] loop over [v] visits. *)
Definition iter (v : json) : result (list json) :=
  match v with
  | JArr l => Ok l
  | JObj kvs => Ok (map (fun kv => JStr (fst kv)) kvs)
  | JStr s => Ok (map (fun c => JStr (String c "")) (String.list_ascii_of_string s))
  | _ => Raise (Exception TypeError Opaque None)
  end.

(** [v[0]] *)
Definition item0 (v : json) : result json :=
  match v with
  | JArr (x :: _) => Ok x
  | JArr [] => Raise (Exception IndexError Opaque None)
  | JStr (String c _) => Ok (JStr (String c ""))
  | JStr EmptyString => Raise (Exception IndexError Opaque None)
  | JObj _ => Raise (Exception KeyError (Lit "0") None)
  | _ => Raise (Exception TypeError Opaque None)
  end.

(** Whether [s] holds ASCII characters only, each then a byte of its
    own in the encoding. *)
Fixpoint is_ascii (s : string) : bool :=
  match s with
  | EmptyString => true
  | String c s' => (Ascii.N_of_ascii c <? 128)%N && is_ascii s'
  end.

(** What [s.lower()] is for a string of ASCII characters: the letters A
    to Z are folded and nothing else. *)
Definition lower_ascii (c : Ascii.ascii) : Ascii.ascii :=
  let n := Ascii.N_of_ascii c in
  if ((65 <=? n) && (n <=? 90))%N then Ascii.ascii_of_N (n + 32) else c.

Fixpoint ascii_lower (s : string) : string :=
  match s with
  | EmptyString => EmptyString
  | String c s' => String (lower_ascii c) (ascii_lower s')
  end.

(** [sub in s] *)
Fixpoint contains (sub s : string) : bool :=
  String.prefix sub s ||
  match s with
  | EmptyString => false
  | String _ s' => contains sub s'
  end.

(** [s.replace("Z", "+00:00")] *)
Fixpoint replace_Z (s : string) : string :=
  match s with
  | EmptyString => EmptyString
  | String c s' =>
      if Ascii.eqb c "Z"%char then "+00:00" +:+ replace_Z s'
      else String c (replace_Z s')
  end.

(** [x in l] for a list of strings *)
Definition str_in (x : string) (l : list string) : bool :=
  existsb (String.eqb x) l.

(** [l[:n]] *)
Definition slice_to {A} (n : Z) (l : list A) : list A :=
  if 0 <=? n then take (Z.to_nat n) l
  else take (Z.to_nat (Z.of_nat (length l) + n)) l.

(** [sep.join(l)] *)
Fixpoint join (sep : string) (l : list string) : string :=
  match l with
  | [] => ""
  | [x] => x
  | x :: l' => x +:+ sep +:+ join sep l'
  end.

(** [min(l)]: the first least element, [None] for the empty list (where
    Python raises [ValueError]). *)
Definition min (l : list Q) : option Q :=
  match l with
  | [] => None
  | x :: l' =>
      Some (fold_left (fun best y => if Qlt_le_dec y best then y else best) l' x)
  end.

(** [sorted(l)] under the order [le], a stable sort: an element is placed
    before the first later element it does not exceed. *)
Fixpoint insert_sorted {A} (le : A -> A -> bool) (x : A) (l : list A) : list A :=
  match l with
  | [] => [x]
  | y :: l' => if le x y then x :: l else y :: insert_sorted le x l'
  end.

Definition sorted {A} (le : A -> A -> bool) (l : list A) : list A :=
  foldr (insert_sorted le) [] l.

End Py.
Import Py.

(** [x < y] on instants and durations, as a boolean. *)
Definition Qltb (x y : Q) : bool :=
  if Qlt_le_dec x y then true else false.

(** ** The interpreter and the libraries *)

(** A [datetime]: whether it carries a time zone, and its instant in
    microseconds.  An aware and a naive [datetime] cannot be ordered. *)
Record datetime := { aware : bool; micros : Z }.

(** Modelled parameters: the field validation of [pydantic.BaseModel],
    [datetime.fromisoformat], [str.lower] and the addition of a
    [timedelta] to a [datetime] are code outside the repository.
    - [validate_int] and [validate_str] say which values a field annotated
      [int] or [str] accepts and what it stores; they accept a genuine
      [int] or [str] unchanged.
    - [fromisoformat] is [None] where the library raises [ValueError].
    - [lower] is [str.lower], which folds by the Unicode tables; on a
      string of ASCII characters it folds the letters A to Z and nothing
      else.
    - [add_seconds now ttl] is the instant of
      [datetime.now() + timedelta(seconds=ttl)] when the clock reads
      [now], and [None] where the addition raises [OverflowError].  What
      it returns is [now + ttl].  It raises for every [ttl] that is as
      long as the range of [datetime], 315,537,897,600 seconds; the clock
      is taken to read an instant at least a day inside that range, so
      for a [ttl] of at most a day it returns. *)
Class Runtime := {
  validate_int : json -> option Z;
  validate_str : json -> option string;
  fromisoformat : string -> option datetime;
  lower : string -> string;
  add_seconds : Q -> Z -> option Q;
  validate_int_int : forall n, validate_int (JNum n) = Some n;
  validate_str_str : forall s, validate_str (JStr s) = Some s;
  lower_ascii_lower : forall s, is_ascii s = true -> lower s = ascii_lower s;
  add_seconds_value : forall now ttl e,
    add_seconds now ttl = Some e -> e = (now + inject_Z ttl)%Q;
  add_seconds_day : forall now ttl,
    -86400 <= ttl <= 86400 ->
    add_seconds now ttl = Some (now + inject_Z ttl)%Q;
  add_seconds_overflow : forall now ttl,
    315537897600 <= Z.abs ttl -> add_seconds now ttl = None
}.

(** ** CacheEntry *)

Module CacheEntry.

Record t := { data : json; expires_at : Q }.

(** [CacheEntry(data, ttl_seconds)] constructed when the clock reads
    [now]; the addition may raise, and then there is no entry. *)
Definition __init__ `{Runtime} (now : Q) (data : json) (ttl_seconds : Z)
  : result t :=
  match add_seconds now ttl_seconds with
  | Some expiry => Ok {| data := data; expires_at := expiry |}
  | None => Raise (Exception OverflowError Opaque None)
  end.

Definition is_expired (now : Q) (self : t) : bool :=
  Qltb (expires_at self) now.

End CacheEntry.

(** ** RateLimiter *)

Module RateLimiter.

Record t := {
  max_requests : Z;
  window_seconds : Z;
  requests : list Q
}.

Definition __init__ (max_requests window_seconds : Z) : t :=
  {| max_requests := max_requests;
     window_seconds := window_seconds;
     requests := [] |}.

Definition set_requests (self : t) (l : list Q) : t :=
  {| max_requests := max_requests self;
     window_seconds := window_seconds self;
     requests := l |}.

(** [await self.acquire()] when [time.time()] reads [now].  The first
    component is the argument of the [asyncio.sleep] the call awaits, if
    it awaits one; the second is the limiter afterwards. *)
Definition acquire (now : Q) (self : t) : result (option Q) * t :=
  let W := inject_Z (window_seconds self) in
  let kept :=
    List.filter (fun req_time => Qltb (now - req_time) W) (requests self) in
  let self := set_requests self kept in
  if Z.of_nat (length (requests self)) >=? max_requests self then
    match Py.min (requests self) with
    | None => (Raise (Exception ValueError Opaque None), self)
    | Some oldest_request =>
        let wait_time := (W - (now - oldest_request))%Q in
        let slept := if Qltb 0 wait_time then Some wait_time else None in
        (Ok slept, set_requests self (requests self ++ [now]))
    end
  else (Ok None, set_requests self (requests self ++ [now])).

End RateLimiter.

(** ** The result models *)

Module ModpackSearchResult.
Record t := {
  id : Z;
  name : string;
  summary : string;
  download_count : Z;
  categories : list string;
  authors : list string;
  logo_url : option string;
  last_updated : option datetime
}.
End ModpackSearchResult.

Module ModpackDetails.
Record t := {
  id : Z;
  name : string;
  summary : string;
  description : string;
  download_count : Z;
  categories : list string;
  authors : list string;
  logo_url : option string;
  screenshots : list string;
  last_updated : option datetime;
  game_version_latest : option string;
  mod_loader : option string
}.
End ModpackDetails.

Module ModpackVersion.
Record t := {
  id : Z;
  display_name : string;
  file_name : string;
  file_date : datetime;
  download_url : string;
  game_versions : list string;
  mod_loader : option string;
  file_size : Z
}.
End ModpackVersion.

(** ** ResponseNormalizer *)

Section Normalizer.
Context `{Runtime}.

(** A field annotated [Optional[str]]. *)
Definition validate_opt_str (v : json) : option (option string) :=
  if is_None v then Some None else Some <$> validate_str v.

(** A field annotated [List[str]] given the Python list [l]. *)
Definition validate_strs (l : list json) : option (list string) :=
  mapM validate_str l.

(** A field annotated [List[str]] given a decoded JSON value. *)
Definition validate_str_list (v : json) : option (list string) :=
  match v with
  | JArr l => validate_strs l
  | _ => None
  end.

Definition validated {A} (o : option A) : result A :=
  match o with
  | Some a => Ok a
  | None => Raise (Exception ValidationError Opaque None)
  end.

(** [[x.get(field, "") for x in mod_data.get(key, [])]] *)
Definition pluck (mod_data : json) (key field : string) : result (list json) :=
  let? xs := get mod_data key (JArr []) in
  let? xs := iter xs in
  traverse (fun x => get x field (JStr "")) xs.

(** [datetime.fromisoformat(v.replace("Z", "+00:00"))] *)
Definition parse_date (v : json) : result datetime :=
  match v with
  | JStr s =>
      match fromisoformat (replace_Z s) with
      | Some d => Ok d
      | None => Raise (Exception ValueError Opaque None)
      end
  | _ => Raise (Exception AttributeError Opaque None)
  end.

(** [parse(mod_data["dateModified"]) if mod_data.get("dateModified") else None] *)
Definition date_modified (mod_data : json) : result (option datetime) :=
  let? c := get mod_data "dateModified" JNull in
  if truthy c then
    let? v := subscript mod_data "dateModified" in
    let? d := parse_date v in
    Ok (Some d)
  else Ok None.

(** [mod_data.get("logo", {}).get("url")] *)
Definition logo_of (mod_data : json) : result json :=
  let? logo := get mod_data "logo" (JObj []) in
  get logo "url" JNull.

(** [mod_data.get("latestFilesIndexes", [{}])[0].get(field)] *)
Definition latest_index (mod_data : json) (field : string) : result json :=
  let? l := get mod_data "latestFilesIndexes" (JArr [JObj []]) in
  let? x := item0 l in
  get x field JNull.

(** The keyword arguments are evaluated in order, then the model
    validates them. *)
Definition _parse_modpack_search_result (mod_data : json)
  : result ModpackSearchResult.t :=
  let? id := subscript mod_data "id" in
  let? name := subscript mod_data "name" in
  let? summary := get mod_data "summary" (JStr "") in
  let? download_count := get mod_data "downloadCount" (JNum 0) in
  let? categories := pluck mod_data "categories" "name" in
  let? authors := pluck mod_data "authors" "name" in
  let? logo_url := logo_of mod_data in
  let? last_updated := date_modified mod_data in
  validated (
    id ← validate_int id;
    name ← validate_str name;
    summary ← validate_str summary;
    download_count ← validate_int download_count;
    categories ← validate_strs categories;
    authors ← validate_strs authors;
    logo_url ← validate_opt_str logo_url;
    Some {| ModpackSearchResult.id := id;
            ModpackSearchResult.name := name;
            ModpackSearchResult.summary := summary;
            ModpackSearchResult.download_count := download_count;
            ModpackSearchResult.categories := categories;
            ModpackSearchResult.authors := authors;
            ModpackSearchResult.logo_url := logo_url;
            ModpackSearchResult.last_updated := last_updated |}).

Definition _parse_modpack_details (mod_data : json)
  : result ModpackDetails.t :=
  let? id := subscript mod_data "id" in
  let? name := subscript mod_data "name" in
  let? summary := get mod_data "summary" (JStr "") in
  let? description := get mod_data "description" (JStr "") in
  let? download_count := get mod_data "downloadCount" (JNum 0) in
  let? categories := pluck mod_data "categories" "name" in
  let? authors := pluck mod_data "authors" "name" in
  let? logo_url := logo_of mod_data in
  let? screenshots := pluck mod_data "screenshots" "url" in
  let? last_updated := date_modified mod_data in
  let? game_version_latest := latest_index mod_data "gameVersion" in
  let? mod_loader := latest_index mod_data "modLoader" in
  validated (
    id ← validate_int id;
    name ← validate_str name;
    summary ← validate_str summary;
    description ← validate_str description;
    download_count ← validate_int download_count;
    categories ← validate_strs categories;
    authors ← validate_strs authors;
    logo_url ← validate_opt_str logo_url;
    screenshots ← validate_strs screenshots;
    game_version_latest ← validate_opt_str game_version_latest;
    mod_loader ← validate_opt_str mod_loader;
    Some {| ModpackDetails.id := id;
            ModpackDetails.name := name;
            ModpackDetails.summary := summary;
            ModpackDetails.description := description;
            ModpackDetails.download_count := download_count;
            ModpackDetails.categories := categories;
            ModpackDetails.authors := authors;
            ModpackDetails.logo_url := logo_url;
            ModpackDetails.screenshots := screenshots;
            ModpackDetails.last_updated := last_updated;
            ModpackDetails.game_version_latest := game_version_latest;
            ModpackDetails.mod_loader := mod_loader |}).

Definition _parse_modpack_version (file_data : json)
  : result ModpackVersion.t :=
  let? id := subscript file_data "id" in
  let? display_name := subscript file_data "displayName" in
  let? file_name := subscript file_data "fileName" in
  let? file_date_raw := subscript file_data "fileDate" in
  let? file_date := parse_date file_date_raw in
  let? download_url := get file_data "downloadUrl" (JStr "") in
  let? game_versions := get file_data "gameVersions" (JArr []) in
  let? mod_loader := get file_data "modLoader" JNull in
  let? file_size := get file_data "fileLength" (JNum 0) in
  validated (
    id ← validate_int id;
    display_name ← validate_str display_name;
    file_name ← validate_str file_name;
    download_url ← validate_str download_url;
    game_versions ← validate_str_list game_versions;
    mod_loader ← validate_opt_str mod_loader;
    file_size ← validate_int file_size;
    Some {| ModpackVersion.id := id;
            ModpackVersion.display_name := display_name;
            ModpackVersion.file_name := file_name;
            ModpackVersion.file_date := file_date;
            ModpackVersion.download_url := download_url;
            ModpackVersion.game_versions := game_versions;
            ModpackVersion.mod_loader := mod_loader;
            ModpackVersion.file_size := file_size |}).

End Normalizer.

(** ** The world: clock and upstream *)

(** A query parameter value: the service passes [int]s and [str]s. *)
Inductive param :=
  | PInt (n : Z)
  | PStr (s : string).

(** [f"{v}"] *)
Definition str_param (v : param) : string :=
  match v with
  | PInt n => pretty n
  | PStr s => s
  end.

(** [httpx.AsyncClient(base_url=..., headers=..., timeout=...)] *)
Record AsyncClient := {
  base_url : string;
  headers : list (string * string);
  timeout : Q
}.

(** A [client.get(url, params=params)] on the wire. *)
Record Request := {
  via : AsyncClient;
  url : string;
  params : list (string * param)
}.

(** [json_body] is [None] when [response.json()] cannot decode the body. *)
Record Response := {
  status_code : Z;
  text : string;
  json_body : option json
}.

(** What a request comes back with: a response, or an exception raised by
    the transport. *)
Inductive outcome :=
  | Reply (r : Response)
  | Fault (e : exn).

Record Exchange := { latency : Q; result_of : outcome }.

(** The clock, the upstream (which answers a request knowing the earlier
    ones) and the requests sent so far. *)
Record World := {
  clock : Q;
  server : list Request -> Request -> Exchange;
  sent : list Request
}.

(** [await asyncio.sleep(d)] *)
Definition sleep (d : Q) (w : World) : World :=
  {| clock := (clock w + d)%Q; server := server w; sent := sent w |}.

(** [await client.get(...)] *)
Definition http_get (req : Request) (w : World) : outcome * World :=
  let x := server w (sent w) req in
  (result_of x,
   {| clock := (clock w + latency x)%Q;
      server := server w;
      sent := sent w ++ [req] |}).

(** An exception raised while [e] is being handled gets [e] as context. *)
Definition during {A} (e : exn) (r : result A) : result A :=
  match r with
  | Ok a => Ok a
  | Raise (Exception c m _) => Raise (Exception c m (Some e))
  end.

(** ** The fallback catalog *)

Module Pack.
Record t := {
  name : string;
  description : string;
  game_version : string;
  mod_loader : string;
  instructions : string;
  estimated_size : string;
  difficulty : string
}.
End Pack.

Definition popular_modpacks : list Pack.t := [
  {| Pack.name := "All The Mods 9";
     Pack.description := "Kitchen sink modpack with tons of mods";
     Pack.game_version := "1.20.1";
     Pack.mod_loader := "Forge";
     Pack.instructions := "Visit CurseForge or ATLauncher to download";
     Pack.estimated_size := "~500MB";
     Pack.difficulty := "Advanced" |};
  {| Pack.name := "FTB Skies";
     Pack.description := "Skyblock-style modpack with quests";
     Pack.game_version := "1.19.2";
     Pack.mod_loader := "Forge";
     Pack.instructions := "Available on FTB App or CurseForge";
     Pack.estimated_size := "~300MB";
     Pack.difficulty := "Intermediate" |};
  {| Pack.name := "Better Minecraft";
     Pack.description := "Enhanced vanilla experience with performance mods";
     Pack.game_version := "1.20.1";
     Pack.mod_loader := "Fabric";
     Pack.instructions := "Download from CurseForge or Modrinth";
     Pack.estimated_size := "~200MB";
     Pack.difficulty := "Beginner" |};
  {| Pack.name := "Create: Above and Beyond";
     Pack.description := "Tech modpack focused on Create mod";
     Pack.game_version := "1.16.5";
     Pack.mod_loader := "Forge";
     Pack.instructions := "Available on CurseForge";
     Pack.estimated_size := "~400MB";
     Pack.difficulty := "Intermediate" |};
  {| Pack.name := "Enigmatica 6";
     Pack.description := "Expert-style kitchen sink modpack";
     Pack.game_version := "1.16.5";
     Pack.mod_loader := "Forge";
     Pack.instructions := "Download from CurseForge";
     Pack.estimated_size := "~600MB";
     Pack.difficulty := "Expert" |}
].

(** ** The URL probe: strings, headers and the model it returns *)

(** [s.split(c)] for a one-character separator. *)
Fixpoint split_on (c : ascii) (s : string) : list string :=
  match s with
  | EmptyString => [EmptyString]
  | String a s' =>
      match split_on c s' with
      | [] => [EmptyString]
      | seg :: rest =>
          if Ascii.eqb a c then EmptyString :: seg :: rest
          else String a seg :: rest
      end
  end.

(** [url.split("/")[-1]] *)
Definition last_segment (url : string) : string :=
  List.last (split_on "/"%char url) EmptyString.

(** The longest prefix without a semicolon: what [[^;]+] consumes. *)
Fixpoint until_semicolon (s : string) : string :=
  match s with
  | EmptyString => EmptyString
  | String c s' =>
      if Ascii.eqb c ";"%char then EmptyString
      else String c (until_semicolon s')
  end.

(** What follows the prefix [p] in [s], when [s] starts with [p]. *)
Fixpoint after_prefix (p s : string) : option string :=
  match p with
  | EmptyString => Some s
  | String a p' =>
      match s with
      | EmptyString => None
      | String b s' => if Ascii.eqb a b then after_prefix p' s' else None
      end
  end.

(** A match of [filename[*]?=([^;]+)] that starts at the head of [s]: its
    group 1. *)
Definition filename_here (s : string) : option string :=
  match after_prefix "filename" s with
  | Some r =>
      let r :=
        match r with
        | String c r' => if Ascii.eqb c "*"%char then r' else r
        | EmptyString => r
        end in
      match r with
      | String c v =>
          if Ascii.eqb c "="%char then
            let g := until_semicolon v in
            if String.eqb g "" then None else Some g
          else None
      | EmptyString => None
      end
  | None => None
  end.

(** [re.search(r'filename[*]?=([^;]+)', s)]: group 1 of the leftmost
    match, [None] when nothing matches. *)
Fixpoint search_filename (s : string) : option string :=
  match filename_here s with
  | Some g => Some g
  | None =>
      match s with
      | EmptyString => None
      | String _ s' => search_filename s'
      end
  end.

Definition is_quote (c : ascii) : bool :=
  Ascii.eqb c (ascii_of_N 34) || Ascii.eqb c (ascii_of_N 39).

Fixpoint lstrip_quotes (s : string) : string :=
  match s with
  | EmptyString => EmptyString
  | String c s' => if is_quote c then lstrip_quotes s' else s
  end.

Fixpoint rstrip_quotes (s : string) : string :=
  match s with
  | EmptyString => EmptyString
  | String c s' =>
      match rstrip_quotes s' with
      | EmptyString => if is_quote c then EmptyString else String c EmptyString
      | r => String c r
      end
  end.

(** [s.strip(chars)] where [chars] holds the double and the single quote:
    both are stripped from both ends. *)
Definition strip_quotes (s : string) : string :=
  rstrip_quotes (lstrip_quotes s).

(** The answer to a [HEAD]: the status, the headers as [response.headers]
    presents them (names in lower case, one value for a name) and the URL
    the redirects ended at. *)
Record HeadResponse := {
  head_status : Z;
  head_headers : list (string * string);
  head_url : string
}.

Inductive head_outcome :=
  | HeadReply (r : HeadResponse)
  | HeadFault (e : exn).

(** The hosts that [client.head] reaches (each answers knowing the URLs
    probed before) and the URLs probed so far. *)
Record Web := {
  host : list string -> string -> head_outcome;
  probed : list string
}.

(** [await client.head(url, follow_redirects=True)] *)
Definition http_head (url : string) (web : Web) : head_outcome * Web :=
  (host web (probed web) url,
   {| host := host web; probed := probed web ++ [url] |}).

(** The dict [validate_custom_modpack_url] returns. *)
Module UrlInfo.
Record t := {
  file_name : string;
  file_size : Z;
  content_type : string;
  url : string;
  accessible : bool
}.
End UrlInfo.

Module CustomModpackSource.
Record t := {
  name : string;
  description : string;
  download_url : string;
  file_name : string;
  mod_loader : option string;
  game_version : option string;
  source_type : string
}.
End CustomModpackSource.

(** Modelled parameter: the builtin [int] applied to a [str], [None] where
    it raises [ValueError]. *)
Class Builtins := { py_int : string -> option Z }.

(** The dict [get_cache_stats] returns. *)
Module CacheStats.
Record t := {
  total_entries : Z;
  active_entries : Z;
  expired_entries : Z
}.
End CacheStats.

(** ** ModpackService *)

Module ModpackService.

Definition BASE_URL : string := "https://api.curseforge.com/v1".
Definition MINECRAFT_GAME_ID : Z := 432.
Definition MODPACK_CATEGORY_ID : Z := 4471.

Record t := {
  api_key : option string;
  cache : gmap string CacheEntry.t;
  rate_limiter : RateLimiter.t;
  client : option AsyncClient
}.

(** A coroutine of the service. *)
Definition coroutine (A : Type) : Type :=
  t -> World -> result A * t * World.

Definition __init__ (api_key : option string) : t :=
  {| api_key := api_key;
     cache := ∅;
     rate_limiter := RateLimiter.__init__ 100 60;
     client := None |}.

Definition set_cache (self : t) (c : gmap string CacheEntry.t) : t :=
  {| api_key := api_key self;
     cache := c;
     rate_limiter := rate_limiter self;
     client := client self |}.

Definition set_rate_limiter (self : t) (rl : RateLimiter.t) : t :=
  {| api_key := api_key self;
     cache := cache self;
     rate_limiter := rl;
     client := client self |}.

Definition set_client (self : t) (c : option AsyncClient) : t :=
  {| api_key := api_key self;
     cache := cache self;
     rate_limiter := rate_limiter self;
     client := c |}.

(** [if self.api_key:] *)
Definition api_key_truthy (self : t) : bool :=
  match api_key self with
  | Some k => negb (String.eqb k "")
  | None => false
  end.

Definition __aenter__ (self : t) : t :=
  let headers :=
    [("Accept", "application/json"); ("User-Agent", "ContainerCraft/1.0")] in
  let headers :=
    if api_key_truthy self
    then headers ++ [("x-api-key", default "" (api_key self))]
    else headers in
  set_client self
    (Some {| base_url := BASE_URL; headers := headers; timeout := 30 |}).

Definition is_api_available (self : t) : bool :=
  match api_key self with
  | Some _ => true
  | None => false
  end.

(** The items of a dict are sorted as tuples; the names of a dict are
    distinct, so the parameter names decide. *)
Definition item_le (x y : string * param) : bool :=
  String.leb (fst x) (fst y).

Definition _get_cache_key (endpoint : string) (params : list (string * param))
  : string :=
  let param_str :=
    join "&" (map (fun kv => fst kv +:+ "=" +:+ str_param (snd kv))
                  (sorted item_le params)) in
  endpoint +:+ "?" +:+ param_str.

(** [self._get_cached_data(cache_key)] when [datetime.now()] reads [now]. *)
Definition _get_cached_data (now : Q) (cache_key : string) (self : t)
  : json * t :=
  match cache self !! cache_key with
  | Some entry =>
      if negb (CacheEntry.is_expired now entry)
      then (CacheEntry.data entry, self)
      else (JNull, set_cache self (delete cache_key (cache self)))
  | None => (JNull, self)
  end.

(** [self._cache_data(cache_key, data, ttl_seconds)] when
    [datetime.now()] reads [now]: the entry is constructed first, and
    nothing is stored when that raises. *)
Definition _cache_data `{Runtime} (now : Q) (cache_key : string)
    (data : json) (ttl_seconds : Z) (self : t) : result unit * t :=
  match CacheEntry.__init__ now data ttl_seconds with
  | Ok entry => (Ok tt, set_cache self (<[cache_key := entry]> (cache self)))
  | Raise e => (Raise e, self)
  end.

(** The [except httpx...] clauses of [_make_request]. *)
Definition transport_error (e : exn) : exn :=
  match exn_class e with
  | ConnectError =>
      Exception APIConnectionError
        (Fmt "Failed to connect to CurseForge API: " (str_exn e)) (Some e)
  | TimeoutException =>
      Exception APIConnectionError (Fmt "Request timeout: " (str_exn e)) (Some e)
  | HTTPError =>
      Exception ModpackServiceError (Fmt "HTTP error: " (str_exn e)) (Some e)
  | _ => e
  end.

(** The [try] block of [_make_request] from the point where the
    transport has answered with [out]: the handlers for the transport
    exceptions, the mapping of the status codes, and the store of the
    decoded body. *)
Definition receive `{Runtime} (endpoint cache_key : string) (out : outcome)
    (self : t) (w : World) : result json * t * World :=
  match out with
  | Fault e => (Raise (transport_error e), self, w)
  | Reply response =>
      if status_code response =? 429 then
        (Raise (Exception APIRateLimitError
                  (Lit "API rate limit exceeded") None), self, w)
      else if status_code response =? 404 then
        (Raise (Exception ModpackNotFoundError
                  (Lit ("Resource not found: " +:+ endpoint)) None),
         self, w)
      else if status_code response >=? 400 then
        (Raise (Exception ModpackServiceError
                  (Lit ("API error " +:+ pretty (status_code response)
                        +:+ ": " +:+ text response)) None),
         self, w)
      else
        match json_body response with
        | None => (Raise (Exception ValueError Opaque None), self, w)
        | Some data =>
            let '(stored, self) :=
              _cache_data (clock w) cache_key data 300 self in
            (let? _ := stored in Ok data, self, w)
        end
  end.

Definition _make_request `{Runtime} (endpoint : string)
    (params : list (string * param)) : coroutine json := fun self w =>
  match client self with
  | None =>
      (Raise (Exception ModpackServiceError
                (Lit "Service not initialized. Use async context manager.")
                None), self, w)
  | Some c =>
      let cache_key := _get_cache_key endpoint params in
      let '(cached_data, self) := _get_cached_data (clock w) cache_key self in
      if negb (is_None cached_data) then (Ok cached_data, self, w)
      else
        let '(admitted, rl) :=
          RateLimiter.acquire (clock w) (rate_limiter self) in
        let self := set_rate_limiter self rl in
        match admitted with
        | Raise e => (Raise e, self, w)
        | Ok slept =>
            let w := from_option (fun d => sleep d w) w slept in
            let '(out, w) :=
              http_get {| via := c; url := endpoint; params := params |} w in
            receive endpoint cache_key out self w
        end
  end.

(** The test of the list comprehension of [search_fallback_modpacks]. *)
Definition matches `{Runtime} (search_lower : string) (pack : Pack.t)
  : bool :=
  contains search_lower (lower (Pack.name pack))
  || contains search_lower (lower (Pack.description pack)).

Definition search_fallback_modpacks `{Runtime} (search_term : string)
  : list Pack.t :=
  if negb (String.eqb search_term "") then
    let search_lower := lower search_term in
    List.filter (matches search_lower) popular_modpacks
  else popular_modpacks.

(** The [ModpackSearchResult(...)] built for the [i]-th suggestion. *)
Definition synthetic (i : nat) (pack : Pack.t) : ModpackSearchResult.t :=
  {| ModpackSearchResult.id := 1000000 + Z.of_nat i;
     ModpackSearchResult.name := Pack.name pack;
     ModpackSearchResult.summary := Pack.description pack;
     ModpackSearchResult.download_count := 0;
     ModpackSearchResult.categories := [Pack.difficulty pack];
     ModpackSearchResult.authors := ["Community"];
     ModpackSearchResult.logo_url := None;
     ModpackSearchResult.last_updated := None |}.

(** The conversion loop of [search_modpacks] over
    [enumerate(fallback_results[:page_size])]; the source has it twice,
    word for word, once for each way into the fallback. *)
Definition fallback_modpacks `{Runtime} (search_term : string)
    (page_size : Z) : list ModpackSearchResult.t :=
  let fallback_results := search_fallback_modpacks search_term in
  imap synthetic (slice_to page_size fallback_results).

Section Operations.
Context `{Runtime}.

(** One turn of the loop of [search_modpacks]: [Some] when the record
    is appended, [None] when the category filter skips it. *)
Definition search_item (category_filter : option string) (mod_data : json)
  : result (option ModpackSearchResult.t) :=
  let? modpack := _parse_modpack_search_result mod_data in
  match category_filter with
  | Some cf =>
      if negb (String.eqb cf "")
         && negb (str_in (lower cf)
                    (map lower (ModpackSearchResult.categories modpack)))
      then Ok None
      else Ok (Some modpack)
  | None => Ok (Some modpack)
  end.

(** The loop with its [except Exception] handler, whose log line
    evaluates [mod_data.get('id', 'unknown')]. *)
Fixpoint search_loop (category_filter : option string) (items : list json)
  : result (list ModpackSearchResult.t) :=
  match items with
  | [] => Ok []
  | mod_data :: rest =>
      match search_item category_filter mod_data with
      | Ok (Some modpack) =>
          let? modpacks := search_loop category_filter rest in
          Ok (modpack :: modpacks)
      | Ok None => search_loop category_filter rest
      | Raise e =>
          let? _ := during e (get mod_data "id" (JStr "unknown")) in
          search_loop category_filter rest
      end
  end.

Definition search_params (search_term sort_field sort_order : string)
    (page_size index : Z) : list (string * param) :=
  [("gameId", PInt MINECRAFT_GAME_ID);
   ("categoryId", PInt MODPACK_CATEGORY_ID);
   ("sortField", PStr sort_field);
   ("sortOrder", PStr sort_order);
   ("pageSize", PInt (Z.min page_size 50));
   ("index", PInt index)]
  ++ (if negb (String.eqb search_term "")
      then [("searchFilter", PStr search_term)] else []).

(** The body of the outer [try] of [search_modpacks]. *)
Definition search_direct (search_term : string)
    (category_filter : option string) (sort_field sort_order : string)
    (page_size index : Z) : coroutine (list ModpackSearchResult.t) :=
  fun self w =>
  let params :=
    search_params search_term sort_field sort_order page_size index in
  let '(r, self, w) := _make_request "/mods/search" params self w in
  (let? response := r in
   let? data := get response "data" (JArr []) in
   let? items := iter data in
   search_loop category_filter items,
   self, w).

Definition search_modpacks (search_term : string)
    (category_filter : option string) (sort_field sort_order : string)
    (page_size index : Z) : coroutine (list ModpackSearchResult.t) :=
  fun self w =>
  if negb (is_api_available self) then
    (Ok (fallback_modpacks search_term page_size), self, w)
  else
    let '(r, self, w) :=
      search_direct search_term category_filter sort_field sort_order
        page_size index self w in
    match r with
    | Ok modpacks => (Ok modpacks, self, w)
    | Raise e => (Ok (fallback_modpacks search_term page_size), self, w)
    end.

Definition get_modpack_details (modpack_id : Z)
  : coroutine ModpackDetails.t := fun self w =>
  let '(r, self, w) :=
    _make_request ("/mods/" +:+ pretty modpack_id) [] self w in
  let r :=
    let? response := r in
    let? mod_data := get response "data" JNull in
    if negb (truthy mod_data) then
      Raise (Exception ModpackNotFoundError
               (Lit ("Modpack " +:+ pretty modpack_id +:+ " not found"))
               None)
    else _parse_modpack_details mod_data in
  match r with
  | Ok modpack => (Ok modpack, self, w)
  | Raise e =>
      match exn_class e with
      | ModpackNotFoundError => (Raise e, self, w)
      | _ =>
          (Raise (Exception ModpackServiceError
                    (Fmt "Failed to retrieve modpack details: " (str_exn e))
                    (Some e)), self, w)
      end
  end.

(** The loop of [get_modpack_versions] with its handler. *)
Fixpoint versions_loop (items : list json) : result (list ModpackVersion.t) :=
  match items with
  | [] => Ok []
  | file_data :: rest =>
      match _parse_modpack_version file_data with
      | Ok version =>
          let? versions := versions_loop rest in
          Ok (version :: versions)
      | Raise e =>
          let? _ := during e (get file_data "id" (JStr "unknown")) in
          versions_loop rest
      end
  end.

(** Whether [<] is defined between all the dates: they are all aware or
    all naive. *)
Definition comparable (versions : list ModpackVersion.t) : bool :=
  match versions with
  | [] => true
  | v :: rest =>
      forallb
        (fun v' =>
           Bool.eqb (aware (ModpackVersion.file_date v'))
                    (aware (ModpackVersion.file_date v)))
        rest
  end.

Definition newer_first (x y : ModpackVersion.t) : bool :=
  micros (ModpackVersion.file_date y) <=? micros (ModpackVersion.file_date x).

(** [versions.sort(key=lambda v: v.file_date, reverse=True)]: newest
    first, equal dates in their original order; [TypeError] when an
    aware date meets a naive one. *)
Definition sort_versions (versions : list ModpackVersion.t)
  : result (list ModpackVersion.t) :=
  if comparable versions then Ok (sorted newer_first versions)
  else Raise (Exception TypeError Opaque None).

Definition versions_params (game_version : option string)
  : list (string * param) :=
  match game_version with
  | Some g =>
      if negb (String.eqb g "") then [("gameVersion", PStr g)] else []
  | None => []
  end.

Definition get_modpack_versions (modpack_id : Z)
    (game_version : option string) : coroutine (list ModpackVersion.t) :=
  fun self w =>
  let params := versions_params game_version in
  let '(r, self, w) :=
    _make_request ("/mods/" +:+ pretty modpack_id +:+ "/files") params
      self w in
  let r :=
    let? response := r in
    let? files_data := get response "data" (JArr []) in
    if negb (truthy files_data) then Ok []
    else
      let? items := iter files_data in
      let? versions := versions_loop items in
      sort_versions versions in
  match r with
  | Ok versions => (Ok versions, self, w)
  | Raise e =>
      (Raise (Exception ModpackServiceError
                (Fmt "Failed to retrieve modpack versions: " (str_exn e))
                (Some e)), self, w)
  end.

Definition get_popular_modpacks (limit : Z)
  : coroutine (list ModpackSearchResult.t) :=
  search_modpacks "" None "TotalDownloads" "desc" limit 0.

Definition get_recently_updated_modpacks (limit : Z)
  : coroutine (list ModpackSearchResult.t) :=
  search_modpacks "" None "LastUpdated" "desc" limit 0.

End Operations.

Definition clear_cache (self : t) : t := set_cache self ∅.

(** [self.cache.values()] *)
Definition cache_values (self : t) : list CacheEntry.t :=
  map snd (map_to_list (cache self)).

(** [get_cache_stats()] when [datetime.now()] reads [now]. *)
Definition get_cache_stats (now : Q) (self : t) : CacheStats.t :=
  let total_entries := Z.of_nat (length (cache_values self)) in
  let expired_entries :=
    Z.of_nat (length (List.filter (CacheEntry.is_expired now)
                        (cache_values self))) in
  {| CacheStats.total_entries := total_entries;
     CacheStats.active_entries := total_entries - expired_entries;
     CacheStats.expired_entries := expired_entries |}.

(** The [except httpx.HTTPError] clause of [validate_custom_modpack_url]:
    every [httpx] class of the model is an [httpx.HTTPError]. *)
Definition probe_error (e : exn) : exn :=
  match exn_class e with
  | ConnectError | TimeoutException | HTTPError =>
      Exception ModpackServiceError
        (Fmt "Failed to validate URL: " (str_exn e)) (Some e)
  | _ => e
  end.

(** The file name: the last segment of the URL, or what the
    [content-disposition] header names when it has a match. *)
Definition probe_file_name (url : string) (headers : list (string * string))
  : string :=
  let file_name := last_segment url in
  match assoc "content-disposition" headers with
  | Some cd_header =>
      match search_filename cd_header with
      | Some group1 => strip_quotes group1
      | None => file_name
      end
  | None => file_name
  end.

(** [int(content_length) if content_length else 0] *)
Definition probe_file_size `{Builtins} (content_length : option string)
  : result Z :=
  match content_length with
  | Some v =>
      if negb (String.eqb v "") then
        match py_int v with
        | Some n => Ok n
        | None => Raise (Exception ValueError Opaque None)
        end
      else Ok 0
  | None => Ok 0
  end.

Definition validate_custom_modpack_url `{Builtins} (url : string)
    (self : t) (web : Web) : result UrlInfo.t * t * Web :=
  match client self with
  | None =>
      (Raise (Exception ModpackServiceError
                (Lit "Service not initialized. Use async context manager.")
                None), self, web)
  | Some _ =>
      let '(out, web) := http_head url web in
      match out with
      | HeadFault e => (Raise (probe_error e), self, web)
      | HeadReply response =>
          if head_status response >=? 400 then
            (Raise (Exception ModpackServiceError
                      (Lit ("URL not accessible: HTTP "
                            +:+ pretty (head_status response))) None),
             self, web)
          else
            let content_length :=
              assoc "content-length" (head_headers response) in
            let content_type :=
              default "" (assoc "content-type" (head_headers response)) in
            let file_name := probe_file_name url (head_headers response) in
            (let? file_size := probe_file_size content_length in
             Ok {| UrlInfo.file_name := file_name;
                   UrlInfo.file_size := file_size;
                   UrlInfo.content_type := content_type;
                   UrlInfo.url := head_url response;
                   UrlInfo.accessible := true |},
             self, web)
      end
  end.

Definition create_custom_modpack `{Builtins} (name download_url : string)
    (description : string) (mod_loader game_version : option string)
    (self : t) (web : Web) : result CustomModpackSource.t * t * Web :=
  let '(r, self, web) := validate_custom_modpack_url download_url self web in
  (let? url_info := r in
   Ok {| CustomModpackSource.name := name;
         CustomModpackSource.description := description;
         CustomModpackSource.download_url := UrlInfo.url url_info;
         CustomModpackSource.file_name := UrlInfo.file_name url_info;
         CustomModpackSource.mod_loader := mod_loader;
         CustomModpackSource.game_version := game_version;
         CustomModpackSource.source_type := "url" |},
   self, web).

(** [create_modpack_service(api_key)], the convenience function of the
    module. *)
Definition create_modpack_service (api_key : option string) : t :=
  __aenter__ (__init__ api_key).

End ModpackService.

(** ** Test doubles used by the examples *)

(** A runtime with strict validation, and [fromisoformat] on the dates the
    examples use. *)
Definition strict_int (v : json) : option Z :=
  match v with JNum n => Some n | _ => None end.

Definition strict_str (v : json) : option string :=
  match v with JStr s => Some s | _ => None end.

Definition table_fromisoformat (s : string) : option datetime :=
  if String.eqb s "2024-01-01T00:00:00+00:00"
  then Some {| aware := true; micros := 1704067200000000 |}
  else if String.eqb s "2024-02-01T00:00:00+00:00"
  then Some {| aware := true; micros := 1706745600000000 |}
  else if String.eqb s "2024-03-01T00:00:00+00:00"
  then Some {| aware := true; micros := 1709251200000000 |}
  else None.

(** An addition that raises exactly for the times to live that are as
    long as the range of [datetime]. *)
Definition bounded_add_seconds (now : Q) (ttl : Z) : option Q :=
  if Z.abs ttl <? 315537897600 then Some (now + inject_Z ttl)%Q else None.

(** The runtime of the examples; its [lower] folds the ASCII letters,
    which is all that the text lowered under it holds. *)
#[local] Instance strict_runtime : Runtime := {|
  validate_int := strict_int;
  validate_str := strict_str;
  fromisoformat := table_fromisoformat;
  lower := ascii_lower;
  add_seconds := bounded_add_seconds;
  validate_int_int := fun n => eq_refl;
  validate_str_str := fun s => eq_refl;
  lower_ascii_lower := fun s _ => eq_refl;
  add_seconds_value :=
    ltac:(unfold bounded_add_seconds; intros now ttl e;
          destruct (Z.abs ttl <? 315537897600); congruence);
  add_seconds_day :=
    ltac:(unfold bounded_add_seconds; intros now ttl Hday;
          destruct (Z.ltb_spec (Z.abs ttl) 315537897600); [reflexivity|lia]);
  add_seconds_overflow :=
    ltac:(unfold bounded_add_seconds; intros now ttl Hfar;
          destruct (Z.ltb_spec (Z.abs ttl) 315537897600); [lia|reflexivity])
|}.

(** An upstream that gives every request the same answer at once. *)
Definition mock_world (now : Q) (answer : outcome) : World :=
  {| clock := now;
     server := fun _ _ => {| latency := 0; result_of := answer |};
     sent := [] |}.

Definition reply (status : Z) (body : json) : outcome :=
  Reply {| status_code := status; text := ""; json_body := Some body |}.

(** A caller that awaits [acquire()] once at each of the given instants:
    what each call returned (the suspension it awaited, if any) and the
    limiter at the end. *)
Fixpoint acquire_all (nows : list Q) (self : RateLimiter.t)
  : list (result (option Q)) * RateLimiter.t :=
  match nows with
  | [] => ([], self)
  | now :: rest =>
      let '(r, self) := RateLimiter.acquire now self in
      let '(rs, self) := acquire_all rest self in
      (r :: rs, self)
  end.

(** A service with a credential, inside its context manager, and one
    constructed with the empty string as credential. *)
Definition direct_service : ModpackService.t :=
  ModpackService.__aenter__ (ModpackService.__init__ (Some "key")).

Definition blank_key_service : ModpackService.t :=
  ModpackService.__aenter__ (ModpackService.__init__ (Some "")).

Definition file_record (id : Z) (file_date : string) : json :=
  JObj [("id", JNum id); ("displayName", JStr "release");
        ("fileName", JStr "pack.zip"); ("fileDate", JStr file_date)].

(** A caller that awaits [acquire()] [n] times in a row, each call issued
    at the instant the previous one returned: the instants at which the
    calls return, that is, at which the callers are admitted. *)
Fixpoint back_to_back (n : nat) (now : Q) (self : RateLimiter.t) : list Q :=
  match n with
  | O => []
  | S n' =>
      match RateLimiter.acquire now self with
      | (Ok slept, self') =>
          let admitted := (now + default 0 slept)%Q in
          admitted :: back_to_back n' admitted self'
      | (Raise _, _) => []
      end
  end.

(** The versions a run returned, and the empty list when it raised. *)
Definition returned {A S W} (x : result (list A) * S * W) : list A :=
  match fst (fst x) with
  | Ok l => l
  | Raise _ => []
  end.

(** An upstream listing three files, the middle one first. *)
Definition three_files : json :=
  JObj [("data",
         JArr [file_record 2 "2024-02-01T00:00:00Z";
               file_record 1 "2024-01-01T00:00:00Z";
               file_record 3 "2024-03-01T00:00:00Z"])].

(** A search response with one record. *)
Definition one_modpack : json :=
  JObj [("data", JArr [JObj [("id", JNum 7); ("name", JStr "Skyfactory")]])].


(** A detail response whose record has an empty list of latest files. *)
Definition no_latest_files : json :=
  JObj [("data",
         JObj [("id", JNum 7); ("name", JStr "Skyfactory");
               ("latestFilesIndexes", JArr [])])].

(** A detail record with the optional fields the examples read. *)
Definition detailed_modpack : json :=
  JObj [("id", JNum 7); ("name", JStr "Skyfactory");
        ("summary", JStr "Sky island");
        ("categories", JArr [JObj [("name", JStr "Tech")]]);
        ("dateModified", JStr "2024-01-01T00:00:00Z");
        ("latestFilesIndexes",
         JArr [JObj [("gameVersion", JStr "1.20.1");
                     ("modLoader", JStr "Forge")]])].

(** A runtime that also reads a date without offset, and an upstream
    listing one file dated without offset and one dated with. *)
Definition offsetless_fromisoformat (s : string) : option datetime :=
  if String.eqb s "2024-01-01T00:00:00"
  then Some {| aware := false; micros := 1704067200000000 |}
  else table_fromisoformat s.

Definition offsetless_runtime : Runtime := {|
  validate_int := strict_int;
  validate_str := strict_str;
  fromisoformat := offsetless_fromisoformat;
  lower := ascii_lower;
  add_seconds := bounded_add_seconds;
  validate_int_int := fun n => eq_refl;
  validate_str_str := fun s => eq_refl;
  lower_ascii_lower := fun s _ => eq_refl;
  add_seconds_value := add_seconds_value (Runtime := strict_runtime);
  add_seconds_day := add_seconds_day (Runtime := strict_runtime);
  add_seconds_overflow := add_seconds_overflow (Runtime := strict_runtime)
|}.

(** A [lower] that folds one letter beyond ASCII as [str.lower] does: the
    capital E with acute accent, U+00C9, encoded as the bytes 195 and 137,
    becomes U+00E9, the bytes 195 and 169.  The runtime with it, and the
    two spellings of a category name. *)
Fixpoint accent_lower (s : string) : string :=
  match s with
  | EmptyString => EmptyString
  | String a rest =>
      match rest with
      | String b s' =>
          if ((N_of_ascii a =? 195) && (N_of_ascii b =? 137))%N
          then String a (String (ascii_of_N 169) (accent_lower s'))
          else String (lower_ascii a) (accent_lower rest)
      | EmptyString => String (lower_ascii a) EmptyString
      end
  end.

Definition accent_runtime : Runtime := {|
  validate_int := strict_int;
  validate_str := strict_str;
  fromisoformat := table_fromisoformat;
  lower := accent_lower;
  add_seconds := bounded_add_seconds;
  validate_int_int := fun n => eq_refl;
  validate_str_str := fun s => eq_refl;
  lower_ascii_lower :=
    ltac:(intros s; induction s as [|a s IH]; [reflexivity|];
          cbn [is_ascii]; intros [Ha Hs]%andb_true_iff;
          specialize (IH Hs); destruct s as [|b s']; [reflexivity|];
          cbn [accent_lower ascii_lower] in *;
          destruct (N.eqb_spec (N_of_ascii a) 195) as [Heq|_];
          [rewrite Heq in Ha; discriminate|];
          cbn [andb]; by rewrite IH);
  add_seconds_value := add_seconds_value (Runtime := strict_runtime);
  add_seconds_day := add_seconds_day (Runtime := strict_runtime);
  add_seconds_overflow := add_seconds_overflow (Runtime := strict_runtime)
|}.

Definition Energie : string :=
  String (ascii_of_N 195) (String (ascii_of_N 137) "nergie").

Definition energie : string :=
  String (ascii_of_N 195) (String (ascii_of_N 169) "nergie").

Definition mixed_files : list json :=
  [file_record 1 "2024-01-01T00:00:00"; file_record 2 "2024-02-01T00:00:00Z"].

(** The order a comparison function decides. *)
Definition le_rel {A} (le : A -> A -> bool) (x y : A) : Prop := le x y = true.

(** [x] is at least as recent as [y]. *)
Definition newer_or_same (x y : ModpackVersion.t) : Prop :=
  micros (ModpackVersion.file_date y) <= micros (ModpackVersion.file_date x).

(** An [int] for the examples: it reads the two lengths they use and
    rejects everything else. *)
Definition table_int (s : string) : option Z :=
  if String.eqb s "1024" then Some 1024
  else if String.eqb s "52428800" then Some 52428800
  else None.

#[local] Instance table_builtins : Builtins := {| py_int := table_int |}.

(** A web in which every [HEAD] gets the same answer. *)
Definition mock_web (answer : head_outcome) : Web :=
  {| host := fun _ _ => answer; probed := [] |}.

Definition head_reply (status : Z) (headers : list (string * string))
    (final_url : string) : head_outcome :=
  HeadReply {| head_status := status;
               head_headers := headers;
               head_url := final_url |}.

(** A download link and the answers of the examples to its probe. *)
Definition pack_url : string := "https://example.org/files/pack.zip".

Definition plain_answer : HeadResponse :=
  {| head_status := 200;
     head_headers := [("content-length", "1024")];
     head_url := "https://cdn.example.org/pack.zip" |}.

Definition named_answer : HeadResponse :=
  {| head_status := 200;
     head_headers :=
       [("content-disposition", "attachment; filename=skyfactory.zip; size=1")];
     head_url := "https://cdn.example.org/pack.zip" |}.

Definition garbled_answer : HeadResponse :=
  {| head_status := 200;
     head_headers := [("content-length", "12abc")];
     head_url := "https://cdn.example.org/pack.zip" |}.

(** ** Well-formed records *)

(** What the normalizers demand of a record that is a JSON object, field
    by field: a required field is present and of its type; a field that may
    be missing is, when present, of its shape. *)
Section WellFormed.
Context `{Runtime}.












End WellFormed.


(** The character [c] occurs in [s]. *)
Fixpoint mentions (c : ascii) (s : string) : bool :=
  match s with
  | EmptyString => false
  | String a s' => Ascii.eqb a c || mentions c s'
  end.

(** [s] consists of quote characters. *)
Fixpoint only_quotes (s : string) : bool :=
  match s with
  | EmptyString => true
  | String a s' => is_quote a && only_quotes s'
  end.

(** Neither quote character occurs in [s]. *)
Definition no_quote (s : string) : Prop :=
  mentions (ascii_of_N 34) s = false /\ mentions (ascii_of_N 39) s = false.

(** The category filter lets [modpack] through: there is no filter (none,
    or the empty string), or the filter and the name of one of its
    categories are the same once [str.lower] has folded both. *)
Definition passes `{Runtime} (category_filter : option string)
    (modpack : ModpackSearchResult.t) : Prop :=
  match category_filter with
  | None => True
  | Some cf =>
      cf = ""
      \/ exists category,
          In category (ModpackSearchResult.categories modpack)
          /\ lower category = lower cf
  end.

(** An exception of the interpreter or of the validation library, as the
    normalizers raise them. *)
Definition builtin_error (e : exn) : Prop :=
  In (exn_class e)
    [KeyError; TypeError; AttributeError; IndexError; ValueError;
     ValidationError].

(** What one call leaves of the service [self] and the world [w] it ran
    in: the credential, the session and the upstream are as before, and
    the requests sent are those sent before, followed by at most one, sent
    through the session. *)
Definition one_request_at_most {A}
    (self : ModpackService.t) (w : World)
    (run : result A * ModpackService.t * World) : Prop :=
  let self' := snd (fst run) in
  let w' := snd run in
  ModpackService.api_key self' = ModpackService.api_key self
  /\ ModpackService.client self' = ModpackService.client self
  /\ server w' = server w
  /\ (sent w' = sent w
      \/ exists req,
           ModpackService.client self = Some (via req)
           /\ sent w' = sent w ++ [req]).

(** The entry that [CacheEntry(data, ttl_seconds)] is when its
    construction at [now] does not raise, and the service with that entry
    stored under [cache_key]. *)
Definition entry_at (now : Q) (data : json) (ttl_seconds : Z)
  : CacheEntry.t :=
  {| CacheEntry.data := data;
     CacheEntry.expires_at := (now + inject_Z ttl_seconds)%Q |}.

Definition store_at (now : Q) (cache_key : string) (data : json)
    (ttl_seconds : Z) (self : ModpackService.t) : ModpackService.t :=
  ModpackService.set_cache self
    (<[cache_key := entry_at now data ttl_seconds]>
       (ModpackService.cache self)).

(** [s] is empty or starts with a semicolon. *)
Definition ends_value (s : string) : bool :=
  match s with
  | EmptyString => true
  | String a _ => Ascii.eqb a ";"%char
  end.

(** * Properties *)

Import ModpackService.

(** ** Comparisons on instants *)

Lemma Qltb_true x y : Qltb x y = true <-> (x < y)%Q.
Proof.
  unfold Qltb. destruct (Qlt_le_dec x y) as [Hlt|Hle]; split; intros; try done.
  exfalso. apply (Qlt_not_le x y); assumption.
Qed.

Lemma Qltb_false x y : Qltb x y = false <-> (y <= x)%Q.
Proof.
  unfold Qltb. destruct (Qlt_le_dec x y) as [Hlt|Hle]; split; intros; try done.
  exfalso. apply (Qlt_not_le x y); assumption.
Qed.

(** ** The cache *)

Lemma is_expired_true now e :
  CacheEntry.is_expired now e = true <-> (CacheEntry.expires_at e < now)%Q.
Proof. apply Qltb_true. Qed.

Lemma is_expired_false now e :
  CacheEntry.is_expired now e = false <-> (now <= CacheEntry.expires_at e)%Q.
Proof. apply Qltb_false. Qed.

Lemma get_cached_live now key self e :
  cache self !! key = Some e ->
  (now <= CacheEntry.expires_at e)%Q ->
  _get_cached_data now key self = (CacheEntry.data e, self).
Proof.
  intros Hk Hle. unfold _get_cached_data. rewrite Hk.
  apply is_expired_false in Hle. by rewrite Hle.
Qed.

Lemma get_cached_expired now key self e :
  cache self !! key = Some e ->
  (CacheEntry.expires_at e < now)%Q ->
  _get_cached_data now key self
  = (JNull, set_cache self (delete key (cache self))).
Proof.
  intros Hk Hlt. unfold _get_cached_data. rewrite Hk.
  apply is_expired_true in Hlt. by rewrite Hlt.
Qed.

Lemma get_cached_value now key self v :
  fst (_get_cached_data now key self) = v ->
  is_None v = false ->
  exists e, cache self !! key = Some e /\ CacheEntry.data e = v
            /\ (now <= CacheEntry.expires_at e)%Q.
Proof.
  unfold _get_cached_data. destruct (cache self !! key) as [e|] eqn:Hk.
  - destruct (CacheEntry.is_expired now e) eqn:He; simpl.
    + intros <-. discriminate.
    + intros <- _. exists e. split; [done|]. split; [done|].
      by apply is_expired_false.
  - simpl. intros <-. discriminate.
Qed.

Lemma lookup_cache_data now key d ttl self :
  cache (store_at now key d ttl self) !! key = Some (entry_at now d ttl).
Proof. unfold store_at. simpl. apply lookup_insert_eq. Qed.

Section Storing.
Context `{Runtime}.

(** A store either returns, and has stored the entry that expires [ttl]
    seconds after [now], or raises [OverflowError], and has stored
    nothing. *)
Lemma cache_data_cases now key d ttl self :
  _cache_data now key d ttl self = (Ok tt, store_at now key d ttl self)
  \/ _cache_data now key d ttl self
     = (Raise (Exception OverflowError Opaque None), self).
Proof.
  unfold _cache_data, CacheEntry.__init__.
  destruct (add_seconds now ttl) as [expiry|] eqn:Hadd; [|by right].
  apply add_seconds_value in Hadd as ->. by left.
Qed.

Lemma cache_data_returns now key d ttl self :
  fst (_cache_data now key d ttl self) = Ok tt ->
  _cache_data now key d ttl self = (Ok tt, store_at now key d ttl self).
Proof. by destruct (cache_data_cases now key d ttl self) as [->| ->]. Qed.

Lemma cache_data_raises now key d ttl self :
  fst (_cache_data now key d ttl self) <> Ok tt ->
  _cache_data now key d ttl self
  = (Raise (Exception OverflowError Opaque None), self).
Proof. by destruct (cache_data_cases now key d ttl self) as [->| ->]. Qed.

Lemma cache_data_day now key d ttl self :
  -86400 <= ttl <= 86400 ->
  _cache_data now key d ttl self = (Ok tt, store_at now key d ttl self).
Proof.
  intros Hday. unfold _cache_data, CacheEntry.__init__.
  by rewrite (add_seconds_day now ttl Hday).
Qed.

Lemma cache_data_overflow now key d ttl self :
  315537897600 <= Z.abs ttl ->
  _cache_data now key d ttl self
  = (Raise (Exception OverflowError Opaque None), self).
Proof.
  intros Hfar. unfold _cache_data, CacheEntry.__init__.
  by rewrite (add_seconds_overflow now ttl Hfar).
Qed.

(** The store of [_make_request] has a time to live of 300 seconds, so
    it returns. *)
Lemma receive_eq endpoint key out self w :
  receive endpoint key out self w
  = match out with
    | Fault e => (Raise (transport_error e), self, w)
    | Reply response =>
        if status_code response =? 429 then
          (Raise (Exception APIRateLimitError
                    (Lit "API rate limit exceeded") None), self, w)
        else if status_code response =? 404 then
          (Raise (Exception ModpackNotFoundError
                    (Lit ("Resource not found: " +:+ endpoint)) None),
           self, w)
        else if status_code response >=? 400 then
          (Raise (Exception ModpackServiceError
                    (Lit ("API error " +:+ pretty (status_code response)
                          +:+ ": " +:+ text response)) None),
           self, w)
        else
          match json_body response with
          | None => (Raise (Exception ValueError Opaque None), self, w)
          | Some data => (Ok data, store_at (clock w) key data 300 self, w)
          end
    end.
Proof.
  unfold receive. destruct out as [response|e]; [|done].
  destruct (status_code response =? 429); [done|].
  destruct (status_code response =? 404); [done|].
  destruct (status_code response >=? 400); [done|].
  destruct (json_body response) as [data|]; [|done].
  rewrite cache_data_day; [done|lia].
Qed.

Lemma receive_stores endpoint key response d self w :
  status_code response < 400 ->
  json_body response = Some d ->
  receive endpoint key (Reply response) self w
  = (Ok d, store_at (clock w) key d 300 self, w).
Proof.
  intros Hstatus Hbody. unfold receive.
  destruct (Z.eqb_spec (status_code response) 429); [lia|].
  destruct (Z.eqb_spec (status_code response) 404); [lia|].
  destruct (Z.geb_spec (status_code response) 400); [lia|].
  rewrite Hbody, cache_data_day; [done|lia].
Qed.

End Storing.

(** C3. The cache never serves a stale value: a lookup that returns a
    payload found it in an entry with [now <= expiry]; an entry whose expiry
    has passed is reported absent and deleted by that lookup; a store with
    ttl 0 returns, and its entry is absent at any later instant (and gone
    from the store); a store with ttl 60 returns, and its entry is returned
    by a lookup made at the instant of storage or at any instant up to 60
    seconds later. *)
Theorem C3_cache_never_stale `{Runtime} :
  (forall now key self v,
      fst (_get_cached_data now key self) = v ->
      is_None v = false ->
      exists e, cache self !! key = Some e /\ CacheEntry.data e = v
                /\ (now <= CacheEntry.expires_at e)%Q)
  /\ (forall now key self e,
        cache self !! key = Some e ->
        (CacheEntry.expires_at e < now)%Q ->
        fst (_get_cached_data now key self) = JNull
        /\ cache (snd (_get_cached_data now key self)) !! key = None)
  /\ (forall stored now key d self,
        (stored < now)%Q ->
        let self' := snd (_cache_data stored key d 0 self) in
        fst (_cache_data stored key d 0 self) = Ok tt
        /\ fst (_get_cached_data now key self') = JNull
        /\ cache (snd (_get_cached_data now key self')) !! key = None)
  /\ (forall stored now key d self,
        (stored <= now)%Q -> (now <= stored + 60)%Q ->
        let self' := snd (_cache_data stored key d 60 self) in
        fst (_cache_data stored key d 60 self) = Ok tt
        /\ _get_cached_data now key self' = (d, self')).
Proof.
  split; [exact get_cached_value|].
  split.
  { intros now key self e Hk Hlt.
    rewrite (get_cached_expired _ _ _ _ Hk Hlt). simpl.
    split; [done|]. apply lookup_delete_eq. }
  split.
  { intros stored now key d self Hlt.
    rewrite cache_data_day by lia. cbn [fst snd]. split; [done|].
    assert (Hk := lookup_cache_data stored key d 0 self).
    rewrite (get_cached_expired now key _ _ Hk).
    - simpl. split; [done|]. apply lookup_delete_eq.
    - simpl. unfold inject_Z. lra. }
  intros stored now key d self H1 H2.
  rewrite cache_data_day by lia. cbn [fst snd]. split; [done|].
  assert (Hk := lookup_cache_data stored key d 60 self).
  rewrite (get_cached_live now key _ _ Hk); [done|].
  simpl. unfold inject_Z. lra.
Qed.

Lemma C3_witness :
  fst (_get_cached_data 1 "/mods/1?"
         (snd (_cache_data 0 "/mods/1?" (JStr "payload") 0 (__init__ None))))
  = JNull
  /\ _get_cached_data 0 "/mods/1?"
       (snd (_cache_data 0 "/mods/1?" (JStr "payload") 60 (__init__ None)))
     = (JStr "payload",
        snd (_cache_data 0 "/mods/1?" (JStr "payload") 60 (__init__ None))).
Proof.
  destruct C3_cache_never_stale as (_ & _ & Hzero & Hsixty).
  split.
  - apply (Hzero 0%Q 1%Q). reflexivity.
  - apply (Hsixty 0%Q 0%Q); vm_compute; discriminate.
Defined.

(** ** Sorting *)

Section Sorting.
Context {A : Type} (le : A -> A -> bool).

Hypothesis le_total : forall x y, le x y = true \/ le y x = true.

Lemma insert_sorted_perm x l : insert_sorted le x l ≡ₚ x :: l.
Proof.
  induction l as [|y l IH]; simpl; [done|].
  destruct (le x y); [done|]. rewrite IH. apply Permutation_swap.
Qed.

Lemma sorted_perm l : sorted le l ≡ₚ l.
Proof.
  induction l as [|x l IH]; simpl; [done|].
  rewrite insert_sorted_perm. by rewrite IH.
Qed.

Lemma insert_sorted_HdRel a x l :
  le_rel le a x -> HdRel (le_rel le) a l -> HdRel (le_rel le) a (insert_sorted le x l).
Proof.
  intros Hax Hal. destruct l as [|y l]; simpl; [by constructor|].
  destruct (le x y); constructor; [done|]. by inversion Hal.
Qed.

Lemma insert_sorted_Sorted x l :
  Sorted (le_rel le) l -> Sorted (le_rel le) (insert_sorted le x l).
Proof.
  induction 1 as [|y l Hl IH Hhd]; simpl.
  - repeat constructor.
  - destruct (le x y) eqn:Hxy.
    + constructor; [by constructor|]. by constructor.
    + constructor; [done|]. apply insert_sorted_HdRel; [|done].
      destruct (le_total x y) as [Hc|Hc]; [congruence|done].
Qed.

Lemma sorted_Sorted l : Sorted (le_rel le) (sorted le l).
Proof.
  induction l as [|x l IH]; simpl; [constructor|].
  by apply insert_sorted_Sorted.
Qed.
End Sorting.

(** ** Cache keys *)

Lemma Sorted_weaken {A} (R1 R2 : relation A) l :
  (forall x y, R1 x y -> R2 x y) -> Sorted R1 l -> Sorted R2 l.
Proof.
  intros Himpl. induction 1 as [|x l Hl IH Hhd]; constructor; [done|].
  destruct Hhd; constructor. by apply Himpl.
Qed.

Lemma item_le_total x y : item_le x y = true \/ item_le y x = true.
Proof. apply String.leb_total. Qed.

Lemma item_le_trans : Transitive (le_rel item_le).
Proof.
  intros x y z Hxy Hyz. unfold le_rel, item_le in *.
  apply Is_true_true. apply Is_true_true in Hxy, Hyz.
  exact (transitivity (R := String.le) Hxy Hyz).
Qed.

Lemma sorted_items_unique (P1 P2 : list (string * param)) :
  NoDup P1.*1 -> P1 ≡ₚ P2 -> sorted item_le P1 = sorted item_le P2.
Proof.
  intros Hnd Hperm. pose proof item_le_trans as Htrans.
  apply (Sorted_unique_strong (le_rel item_le)).
  - intros x1 x2 Hx1 Hx2 H12 H21.
    rewrite sorted_perm in Hx1. rewrite sorted_perm, <- Hperm in Hx2.
    assert (x1.1 = x2.1) as Hk.
    { unfold le_rel, item_le in *.
      apply (anti_symm String.le); by apply Is_true_true. }
    apply list_elem_of_lookup in Hx1 as [i Hi], Hx2 as [j Hj].
    assert (i = j) as ->.
    { eapply NoDup_lookup; [exact Hnd| |].
      - rewrite list_lookup_fmap, Hi. reflexivity.
      - rewrite list_lookup_fmap, Hj. simpl. by rewrite Hk. }
    congruence.
  - apply sorted_Sorted, item_le_total.
  - apply sorted_Sorted, item_le_total.
  - by rewrite !sorted_perm.
Qed.

(** C9. Cache key construction is deterministic: two parameter mappings
    (dicts, so their names are distinct) that hold the same (name, value)
    pairs give the same key for every endpoint, whatever the order of
    insertion; the key is the endpoint, a question mark, and the rendered
    parameters in ascending order of name. *)
Theorem C9_cache_key_deterministic
    (endpoint : string) (P1 P2 : list (string * param)) :
  NoDup P1.*1 -> NoDup P2.*1 ->
  (forall kv, kv ∈ P1 <-> kv ∈ P2) ->
  _get_cache_key endpoint P1 = _get_cache_key endpoint P2
  /\ exists l,
      l ≡ₚ P1
      /\ Sorted (fun x y => String.le x.1 y.1) l
      /\ _get_cache_key endpoint P1
         = endpoint +:+ "?"
           +:+ join "&" (map (fun kv => kv.1 +:+ "=" +:+ str_param kv.2) l).
Proof.
  intros Hnd1 Hnd2 Hset.
  assert (P1 ≡ₚ P2) as Hperm.
  { apply NoDup_Permutation; [| |done]; eapply NoDup_fmap_1; eassumption. }
  split.
  - unfold _get_cache_key. by rewrite (sorted_items_unique P1 P2).
  - exists (sorted item_le P1). split; [apply sorted_perm|]. split; [|done].
    apply (Sorted_weaken (le_rel item_le));
      [|apply sorted_Sorted, item_le_total].
    intros x y Hxy. by apply Is_true_true.
Qed.

Lemma C9_witness :
  _get_cache_key "/mods/search" [("pageSize", PInt 20); ("index", PInt 0)]
  = _get_cache_key "/mods/search" [("index", PInt 0); ("pageSize", PInt 20)].
Proof.
  apply (C9_cache_key_deterministic "/mods/search"
           [("pageSize", PInt 20); ("index", PInt 0)]
           [("index", PInt 0); ("pageSize", PInt 20)]).
  - compute_done.
  - compute_done.
  - intros kv. rewrite !elem_of_cons, !elem_of_nil. tauto.
Defined.

(** ** Strings *)

Lemma prefix_spec sub s :
  String.prefix sub s = true <-> exists post, s = sub +:+ post.
Proof.
  revert s. induction sub as [|c sub IH]; intros s.
  - split; [intros _; exists s; reflexivity|intros _; by destruct s].
  - destruct s as [|c' s]; simpl.
    + split; [done|]. intros [post Hpost]. discriminate.
    + destruct (Ascii.ascii_dec c c') as [->|Hne].
      * rewrite IH. split; intros [post Hpost]; exists post.
        -- by rewrite Hpost.
        -- by injection Hpost.
      * split; [done|]. intros [post Hpost]. injection Hpost. congruence.
Qed.

(** [contains sub s] is Python's [sub in s]: [sub] occurs in [s]. *)
Lemma contains_spec sub s :
  contains sub s = true <-> exists pre post, s = pre +:+ sub +:+ post.
Proof.
  induction s as [|c s IH].
  - change (contains sub "") with (String.prefix sub "" || false).
    rewrite orb_false_r, prefix_spec. split.
    + intros [post Hpost]. by exists "", post.
    + intros [pre [post Hpost]]. destruct pre; [by exists post|discriminate].
  - change (contains sub (String c s))
      with (String.prefix sub (String c s) || contains sub s).
    rewrite orb_true_iff, prefix_spec, IH. split.
    + intros [[post Hpost]|[pre [post Hpost]]].
      * by exists "", post.
      * exists (String c pre), post. by rewrite Hpost.
    + intros [pre [post Hpost]]. destruct pre as [|c' pre].
      * left. by exists post.
      * right. exists pre, post. by injection Hpost.
Qed.

Lemma contains_empty s : contains "" s = true.
Proof. apply contains_spec. by exists "", s. Qed.

(** ** The fallback path *)

Lemma is_ascii_lower_catalog :
  Forall (fun pack => is_ascii (Pack.name pack) = true
                      /\ is_ascii (Pack.description pack) = true)
         popular_modpacks.
Proof. repeat constructor. Qed.

Lemma filter_all {A} (f : A -> bool) (l : list A) :
  (forall x, In x l -> f x = true) -> List.filter f l = l.
Proof.
  induction l as [|x l IH]; simpl; intros Hall; [done|].
  rewrite (Hall x) by auto. f_equal. apply IH. auto.
Qed.

Lemma length_slice_to {A} (n : Z) (l : list A) :
  0 <= n -> Z.of_nat (length (slice_to n l)) <= n.
Proof.
  intros Hn. unfold slice_to.
  destruct (Z.leb_spec 0 n); [|lia]. rewrite length_take. lia.
Qed.

Lemma slice_to_prefix {A} (n : Z) (l : list A) : slice_to n l `prefix_of` l.
Proof. unfold slice_to. destruct (0 <=? n); apply prefix_take. Qed.

Lemma filter_sublist {A} (f : A -> bool) (l : list A) :
  List.filter f l `sublist_of` l.
Proof.
  induction l as [|x l IH]; simpl; [done|].
  destruct (f x); by constructor.
Qed.

Section Fallback.
Context `{Runtime}.

(** The test of the filter on a catalog entry, for a search term of ASCII
    characters: the entries of the catalog are ASCII text. *)
Lemma matches_ascii search_term pack :
  is_ascii search_term = true ->
  In pack popular_modpacks ->
  matches (lower search_term) pack
  = contains (ascii_lower search_term) (ascii_lower (Pack.name pack))
    || contains (ascii_lower search_term)
         (ascii_lower (Pack.description pack)).
Proof.
  intros Hterm Hin. unfold matches.
  pose proof is_ascii_lower_catalog as Hcatalog.
  rewrite Forall_forall in Hcatalog.
  destruct (Hcatalog pack) as [Hname Hdescription];
    [by apply list_elem_of_In|].
  by rewrite !lower_ascii_lower.
Qed.

Lemma search_fallback_filter search_term :
  search_fallback_modpacks search_term
  = List.filter (matches (lower search_term)) popular_modpacks.
Proof.
  unfold search_fallback_modpacks.
  destruct (String.eqb_spec search_term "") as [->|Hne]; [|done].
  cbn [negb]. symmetry. apply filter_all. intros pack Hin.
  rewrite matches_ascii by done. cbn [ascii_lower].
  by rewrite contains_empty.
Qed.

Lemma search_fallback_ascii search_term :
  is_ascii search_term = true ->
  search_fallback_modpacks search_term
  = List.filter
      (fun pack =>
         contains (ascii_lower search_term) (ascii_lower (Pack.name pack))
         || contains (ascii_lower search_term)
              (ascii_lower (Pack.description pack)))
      popular_modpacks.
Proof.
  intros Hterm. rewrite search_fallback_filter.
  apply filter_ext_in. intros pack Hin. by apply matches_ascii.
Qed.

Lemma fallback_modpacks_lookup search_term page_size i :
  fallback_modpacks search_term page_size !! i
  = synthetic i
    <$> slice_to page_size
        (List.filter (matches (lower search_term)) popular_modpacks) !! i.
Proof.
  unfold fallback_modpacks. rewrite search_fallback_filter.
  apply list_lookup_imap.
Qed.

End Fallback.

(** C5. Without a credential [search_modpacks] answers from the fallback
    path and leaves the service and the world as they were.  There are as
    many results as there are catalog entries whose lowered name or
    description contains the lowered search term, cut by [[:page_size]]
    (at most [page_size] for a page size that is not negative), in the
    order of the catalog.  The i-th result has id 1,000,000 + i, so the
    ids are consecutive from 1,000,000; its name and summary are the name
    and description of the i-th of these entries, its one category is the
    difficulty of that entry, its author is the placeholder, its download
    count is zero, and it has neither logo nor date.  [search("Better")]
    returns the one entry Better Minecraft, and [search("MODPACK")] with a
    page size of 3 the first three of the four entries that mention a
    modpack, numbered 1,000,000 to 1,000,002. *)
Theorem C5_fallback_results `{Runtime}
    (self : ModpackService.t) (w : World)
    (search_term : string) (category_filter : option string)
    (sort_field sort_order : string) (page_size index : Z) :
  is_api_available self = false ->
  let results := fallback_modpacks search_term page_size in
  let matching := List.filter (matches (lower search_term)) popular_modpacks in
  search_modpacks search_term category_filter sort_field sort_order
    page_size index self w = (Ok results, self, w)
  /\ (forall i, results !! i = synthetic i <$> slice_to page_size matching !! i)
  /\ (forall pack, pack ∈ matching <->
        pack ∈ popular_modpacks
        /\ (contains (lower search_term) (lower (Pack.name pack)) = true
            \/ contains (lower search_term) (lower (Pack.description pack)) = true))
  /\ slice_to page_size matching `prefix_of` matching
  /\ (0 <= page_size -> Z.of_nat (length results) <= page_size)
  /\ Forall (fun r => 1000000 <= ModpackSearchResult.id r
                      /\ ModpackSearchResult.authors r = ["Community"]) results
  /\ fallback_modpacks "Better" 20
     = [ {| ModpackSearchResult.id := 1000000;
            ModpackSearchResult.name := "Better Minecraft";
            ModpackSearchResult.summary :=
              "Enhanced vanilla experience with performance mods";
            ModpackSearchResult.download_count := 0;
            ModpackSearchResult.categories := ["Beginner"];
            ModpackSearchResult.authors := ["Community"];
            ModpackSearchResult.logo_url := None;
            ModpackSearchResult.last_updated := None |} ]
  /\ matching `sublist_of` popular_modpacks
  /\ length results = length (slice_to page_size matching)
  /\ (forall i r,
        results !! i = Some r ->
        exists pack,
          slice_to page_size matching !! i = Some pack
          /\ ModpackSearchResult.id r = 1000000 + Z.of_nat i
          /\ ModpackSearchResult.name r = Pack.name pack
          /\ ModpackSearchResult.summary r = Pack.description pack
          /\ ModpackSearchResult.download_count r = 0
          /\ ModpackSearchResult.categories r = [Pack.difficulty pack]
          /\ ModpackSearchResult.authors r = ["Community"]
          /\ ModpackSearchResult.logo_url r = None
          /\ ModpackSearchResult.last_updated r = None)
  /\ (ModpackSearchResult.id <$> fallback_modpacks "MODPACK" 3
      = [1000000; 1000001; 1000002]
      /\ ModpackSearchResult.name <$> fallback_modpacks "MODPACK" 3
         = ["All The Mods 9"; "FTB Skies"; "Create: Above and Beyond"]
      /\ ModpackSearchResult.categories <$> fallback_modpacks "MODPACK" 3
         = [["Advanced"]; ["Intermediate"]; ["Intermediate"]]).
Proof.
  intros Hno results matching.
  split. { unfold search_modpacks. by rewrite Hno. }
  split. { apply fallback_modpacks_lookup. }
  split.
  { intros pack. unfold matching. rewrite list_elem_of_In, filter_In.
    rewrite <- list_elem_of_In. unfold matches. by rewrite orb_true_iff. }
  split. { apply slice_to_prefix. }
  split.
  { intros Hps. unfold results, fallback_modpacks.
    rewrite length_imap. by apply length_slice_to. }
  split.
  { apply Forall_lookup_2. intros i r Hr.
    unfold results in Hr. rewrite fallback_modpacks_lookup in Hr.
    destruct (slice_to page_size _ !! i) as [pack|]; simplify_eq/=.
    split; [lia|done]. }
  split.
  { unfold fallback_modpacks. by rewrite search_fallback_ascii. }
  split. { apply filter_sublist. }
  split.
  { unfold results, fallback_modpacks.
    by rewrite length_imap, search_fallback_filter. }
  split.
  { intros i r Hr. unfold results in Hr.
    rewrite fallback_modpacks_lookup in Hr. fold matching in Hr.
    destruct (slice_to page_size matching !! i) as [pack|]; [|done].
    injection Hr as <-. exists pack. by repeat split. }
  unfold fallback_modpacks. by rewrite search_fallback_ascii.
Qed.

Lemma C5_witness :
  search_modpacks "MODPACK" None "Popularity" "desc" 3 0
    (__aenter__ (__init__ None)) (mock_world 0 (Fault (Exception ConnectError Opaque None)))
  = (Ok (fallback_modpacks "MODPACK" 3),
     __aenter__ (__init__ None),
     mock_world 0 (Fault (Exception ConnectError Opaque None)))
  /\ Z.of_nat (length (fallback_modpacks "MODPACK" 3)) <= 3
  /\ ModpackSearchResult.id <$> fallback_modpacks "MODPACK" 3
     = [1000000; 1000001; 1000002]
  /\ ModpackSearchResult.name <$> fallback_modpacks "MODPACK" 3
     = ["All The Mods 9"; "FTB Skies"; "Create: Above and Beyond"].
Proof.
  destruct (C5_fallback_results (__aenter__ (__init__ None))
              (mock_world 0 (Fault (Exception ConnectError Opaque None)))
              "MODPACK" None "Popularity" "desc" 3 0 eq_refl)
    as (Hrun & _ & _ & _ & Hlen & _ & _ & _ & _ & _ & Hids & Hnames & _).
  split; [exact Hrun|]. split; [apply Hlen; lia|].
  split; [exact Hids|exact Hnames].
Defined.

(** ** The request pipeline *)

Lemma get_cached_frame now key self :
  let self' := snd (_get_cached_data now key self) in
  api_key self' = api_key self
  /\ rate_limiter self' = rate_limiter self
  /\ client self' = client self.
Proof.
  unfold _get_cached_data. destruct (cache self !! key) as [e|]; [|done].
  by destruct (CacheEntry.is_expired now e).
Qed.

(** On a hit the payload comes back and nothing else happens. *)
Lemma make_request_hit `{Runtime} endpoint params self w c e :
  client self = Some c ->
  cache self !! _get_cache_key endpoint params = Some e ->
  (clock w <= CacheEntry.expires_at e)%Q ->
  is_None (CacheEntry.data e) = false ->
  _make_request endpoint params self w = (Ok (CacheEntry.data e), self, w).
Proof.
  intros Hc Hk Hle Hd. unfold _make_request. rewrite Hc.
  rewrite (get_cached_live _ _ _ _ Hk Hle). by rewrite Hd.
Qed.

(** On a miss the limiter admits the call, the request goes out, and the
    answer is received. *)
Lemma make_request_miss `{Runtime} endpoint params self w c slept rl :
  client self = Some c ->
  fst (_get_cached_data (clock w) (_get_cache_key endpoint params) self) = JNull ->
  RateLimiter.acquire (clock w) (rate_limiter self) = (Ok slept, rl) ->
  let key := _get_cache_key endpoint params in
  let self1 := set_rate_limiter (snd (_get_cached_data (clock w) key self)) rl in
  let w1 := from_option (fun d => sleep d w) w slept in
  let req := {| via := c; url := endpoint; params := params |} in
  _make_request endpoint params self w
  = receive endpoint key (fst (http_get req w1)) self1 (snd (http_get req w1)).
Proof.
  intros Hc Hmiss Hacq key self1 w1 req. unfold _make_request. rewrite Hc.
  fold key. subst self1. fold key in Hmiss.
  destruct (get_cached_frame (clock w) key self) as (_ & Hrl & _).
  destruct (_get_cached_data (clock w) key self) as [cached self'].
  simpl in *. subst cached. simpl. rewrite Hrl, Hacq.
  fold w1. fold req. by destruct (http_get req w1).
Qed.

Lemma receive_sent `{Runtime} endpoint key out self w :
  snd (receive endpoint key out self w) = w.
Proof.
  unfold receive. destruct out as [response|e]; [|done].
  repeat case_match; done.
Qed.

Lemma sent_from_option slept w :
  sent (from_option (fun d => sleep d w) w slept) = sent w.
Proof. by destruct slept. Qed.

Lemma server_from_option slept w :
  server (from_option (fun d => sleep d w) w slept) = server w.
Proof. by destruct slept. Qed.

(** ** Search and its fallback *)

Section Search.
Context `{Runtime}.
Variables (search_term : string) (category_filter : option string).
Variables (sort_field sort_order : string) (page_size index : Z).

Let search := search_modpacks search_term category_filter sort_field
                sort_order page_size index.
Let direct := search_direct search_term category_filter sort_field
                sort_order page_size index.
Let request := _make_request "/mods/search"
                 (search_params search_term sort_field sort_order
                    page_size index).

Lemma search_direct_raise self w e self' w' :
  request self w = (Raise e, self', w') ->
  direct self w = (Raise e, self', w').
Proof. unfold direct, search_direct. fold request. by intros ->. Qed.

Lemma search_direct_frame self w :
  snd (fst (direct self w)) = snd (fst (request self w))
  /\ snd (direct self w) = snd (request self w).
Proof.
  unfold direct, search_direct. fold request.
  by destruct (request self w) as [[r self'] w'].
Qed.

Lemma search_absorbs self w e self' w' :
  is_api_available self = true ->
  direct self w = (Raise e, self', w') ->
  search self w = (Ok (fallback_modpacks search_term page_size), self', w').
Proof.
  intros Hkey Hraise. unfold search, search_modpacks.
  rewrite Hkey. simpl. fold direct. by rewrite Hraise.
Qed.

Lemma search_returns self w :
  exists results, fst (fst (search self w)) = Ok results.
Proof.
  unfold search, search_modpacks.
  destruct (is_api_available self); simpl; [|by eexists].
  fold direct. destruct (direct self w) as [[[results|e] self'] w'];
    by eexists.
Qed.

Lemma search_frame self w :
  is_api_available self = true ->
  snd (fst (search self w)) = snd (fst (request self w))
  /\ snd (search self w) = snd (request self w).
Proof.
  intros Hkey. destruct (search_direct_frame self w) as [<- <-].
  unfold search, search_modpacks. rewrite Hkey. simpl. fold direct.
  by destruct (direct self w) as [[[results|e] self'] w'].
Qed.

(** C4. With a credential configured, a failure of the direct search
    that is not a not-found condition is absorbed: the call returns the
    fallback results for the same search term and page size instead of
    raising.  This holds for a failure anywhere in the direct attempt and
    in particular for an error raised by the request pipeline (a
    connectivity, rate-limit or generic API error); the search returns a
    result sequence in every case. *)
Theorem C4_search_absorbs_failures self w :
  is_api_available self = true ->
  (forall e self' w',
      direct self w = (Raise e, self', w') ->
      exn_class e <> ModpackNotFoundError ->
      search self w
      = (Ok (fallback_modpacks search_term page_size), self', w'))
  /\ (forall e self' w',
        request self w = (Raise e, self', w') ->
        exn_class e <> ModpackNotFoundError ->
        search self w
        = (Ok (fallback_modpacks search_term page_size), self', w'))
  /\ exists results, fst (fst (search self w)) = Ok results.
Proof.
  intros Hkey. split; [|split].
  - intros e self' w' Hraise _. by apply (search_absorbs self w e).
  - intros e self' w' Hraise _.
    apply (search_absorbs self w e); [done|]. by apply search_direct_raise.
  - apply search_returns.
Qed.

End Search.

Lemma C4_witness :
  fst (fst (search_modpacks "Better" None "Popularity" "desc" 20 0
              direct_service (mock_world 0 (reply 500 JNull))))
  = Ok (fallback_modpacks "Better" 20).
Proof.
  set (w := mock_world 0 (reply 500 JNull)).
  set (x := _make_request "/mods/search"
              (search_params "Better" "Popularity" "desc" 20 0)
              direct_service w).
  destruct (C4_search_absorbs_failures "Better" None "Popularity" "desc" 20 0
              direct_service w eq_refl) as (_ & Hrequest & _).
  rewrite (Hrequest (Exception ModpackServiceError (Lit "API error 500: ") None)
             (snd (fst x)) (snd x)).
  - reflexivity.
  - vm_compute. reflexivity.
  - discriminate.
Defined.

(** ** Credential presence *)

Lemma fresh_service_miss key now k :
  fst (_get_cached_data now k (__aenter__ (__init__ key))) = JNull.
Proof. unfold _get_cached_data. simpl. by rewrite lookup_empty. Qed.

(** C10. A client constructed with the empty string as credential is
    treated in two ways: [is_api_available] is true, and a search goes to
    the upstream (it sends the request for [/mods/search]) instead of the
    fallback; yet the session built on entry carries only the [Accept] and
    [User-Agent] headers, so the request is sent without the API-key
    header. *)
Theorem C10_blank_credential `{Runtime} :
  is_api_available blank_key_service = true
  /\ exists c,
      client blank_key_service = Some c
      /\ headers c
         = [("Accept", "application/json"); ("User-Agent", "ContainerCraft/1.0")]
      /\ assoc "x-api-key" (headers c) = None
      /\ forall w search_term category_filter sort_field sort_order
                page_size index,
          sent (snd (search_modpacks search_term category_filter sort_field
                       sort_order page_size index blank_key_service w))
          = sent w
            ++ [ {| via := c;
                    url := "/mods/search";
                    params := search_params search_term sort_field sort_order
                                page_size index |} ].
Proof.
  split; [reflexivity|]. eexists. split; [reflexivity|].
  split; [reflexivity|]. split; [reflexivity|].
  intros w search_term category_filter sort_field sort_order page_size index.
  destruct (search_frame search_term category_filter sort_field sort_order
              page_size index blank_key_service w eq_refl) as [_ ->].
  erewrite make_request_miss;
    [|reflexivity|apply fresh_service_miss|reflexivity].
  rewrite receive_sent. simpl. reflexivity.
Qed.

(** ** Detail and version lookups *)

Section Lookups.
Context `{Runtime}.

Lemma details_not_found_unchanged modpack_id self w e self' w' :
  _make_request ("/mods/" +:+ pretty modpack_id) [] self w
  = (Raise e, self', w') ->
  exn_class e = ModpackNotFoundError ->
  get_modpack_details modpack_id self w = (Raise e, self', w').
Proof.
  intros Hreq Hcls. unfold get_modpack_details. rewrite Hreq. simpl.
  by rewrite Hcls.
Qed.

Lemma details_empty_payload modpack_id self w response mod_data self' w' :
  _make_request ("/mods/" +:+ pretty modpack_id) [] self w
  = (Ok response, self', w') ->
  get response "data" JNull = Ok mod_data ->
  truthy mod_data = false ->
  get_modpack_details modpack_id self w
  = (Raise (Exception ModpackNotFoundError
              (Lit ("Modpack " +:+ pretty modpack_id +:+ " not found")) None),
     self', w').
Proof.
  intros Hreq Hdata Hfalsy. unfold get_modpack_details. rewrite Hreq. simpl.
  rewrite Hdata. simpl. by rewrite Hfalsy.
Qed.

Lemma details_other_wrapped modpack_id self w e self' w' :
  _make_request ("/mods/" +:+ pretty modpack_id) [] self w
  = (Raise e, self', w') ->
  exn_class e <> ModpackNotFoundError ->
  get_modpack_details modpack_id self w
  = (Raise (Exception ModpackServiceError
              (Fmt "Failed to retrieve modpack details: " (str_exn e))
              (Some e)), self', w').
Proof.
  intros Hreq Hcls. unfold get_modpack_details. rewrite Hreq. simpl.
  by destruct (exn_class e).
Qed.

(** [get_modpack_versions] has the one handler: whatever the request
    raises comes out wrapped. *)
Lemma versions_wraps modpack_id game_version self w e self' w' :
  _make_request ("/mods/" +:+ pretty modpack_id +:+ "/files")
    (versions_params game_version) self w = (Raise e, self', w') ->
  get_modpack_versions modpack_id game_version self w
  = (Raise (Exception ModpackServiceError
              (Fmt "Failed to retrieve modpack versions: " (str_exn e))
              (Some e)), self', w').
Proof. intros Hreq. unfold get_modpack_versions. by rewrite Hreq. Qed.

End Lookups.

(** C2. The detail lookup re-raises a not-found error as it is, but the
    version lookup does not: when the upstream answers 404 to
    [get_modpack_versions(999999999)] the caller receives a
    [ModpackServiceError] whose context is the [ModpackNotFoundError],
    where the same answer to [get_modpack_details(999999999)] raises the
    [ModpackNotFoundError] itself. *)
Theorem C2_versions_not_found_is_wrapped `{Runtime} :
  let not_found endpoint :=
    Exception ModpackNotFoundError
      (Lit ("Resource not found: " +:+ endpoint)) None in
  let w := mock_world 0 (reply 404 JNull) in
  fst (fst (get_modpack_versions 999999999 None direct_service w))
  = Raise (Exception ModpackServiceError
             (Fmt "Failed to retrieve modpack versions: "
                (Lit "Resource not found: /mods/999999999/files"))
             (Some (not_found "/mods/999999999/files")))
  /\ fst (fst (get_modpack_details 999999999 direct_service w))
     = Raise (not_found "/mods/999999999").
Proof. split; vm_compute; reflexivity. Qed.

(** ** The rate limiter *)

(** The suspension of a blocked call: the pruned list holds at least
    [max_requests] instants, the wait is the window less the age of the
    oldest of them, and the call suspends only for a positive wait. *)
Lemma acquire_suspends now self d self' :
  RateLimiter.acquire now self = (Ok (Some d), self') ->
  let W := inject_Z (RateLimiter.window_seconds self) in
  let kept :=
    List.filter (fun req_time => Qltb (now - req_time) W)
      (RateLimiter.requests self) in
  exists oldest,
    Py.min kept = Some oldest
    /\ d = (W - (now - oldest))%Q
    /\ (0 < d)%Q
    /\ RateLimiter.max_requests self <= Z.of_nat (length kept)
    /\ RateLimiter.requests self' = kept ++ [now].
Proof.
  intros Hacq W kept. unfold RateLimiter.acquire in Hacq.
  cbn [RateLimiter.requests RateLimiter.max_requests
       RateLimiter.window_seconds RateLimiter.set_requests] in Hacq.
  fold W in Hacq. fold kept in Hacq.
  destruct (Z.of_nat (length kept) >=? RateLimiter.max_requests self) eqn:Hfull;
    [|by simplify_eq].
  destruct (Py.min kept) as [oldest|]; [|by simplify_eq].
  destruct (Qltb 0 (W - (now - oldest))) eqn:Hpos; simplify_eq.
  exists oldest. repeat split; [by apply Qltb_true|lia].
Qed.

(** Below the limit a call does not suspend. *)
Lemma acquire_under_limit now self :
  let W := inject_Z (RateLimiter.window_seconds self) in
  let kept :=
    List.filter (fun req_time => Qltb (now - req_time) W)
      (RateLimiter.requests self) in
  Z.of_nat (length kept) < RateLimiter.max_requests self ->
  RateLimiter.acquire now self
  = (Ok None, RateLimiter.set_requests self (kept ++ [now])).
Proof.
  intros W kept Hroom. unfold RateLimiter.acquire.
  cbn [RateLimiter.requests RateLimiter.max_requests
       RateLimiter.window_seconds RateLimiter.set_requests].
  fold W. fold kept.
  destruct (Z.geb_spec (Z.of_nat (length kept)) (RateLimiter.max_requests self));
    [lia|done].
Qed.

(** C1. The limiter records the instant at which [acquire()] was called,
    not the instant at which the caller is let through.  With
    [RateLimiter(max_requests=1, window_seconds=10)] and three calls in a
    row from instant 0, the second call waits 10 seconds and records 0, so
    the third call, issued at 10, finds nothing within the window and is
    let through at once: two callers are admitted at instant 10, and the
    second call appended its timestamp while the recorded admission at 0
    was within the window. *)
Theorem C1_limiter_admits_two_in_a_window :
  let limiter := RateLimiter.__init__ 1 10 in
  back_to_back 3 0 limiter = [0%Q; 10%Q; 10%Q]
  /\ exists after_first after_second,
      RateLimiter.acquire 0 limiter = (Ok None, after_first)
      /\ RateLimiter.requests after_first = [0%Q]
      /\ RateLimiter.acquire 0 after_first = (Ok (Some 10%Q), after_second)
      /\ RateLimiter.requests after_second = [0%Q; 0%Q]
      /\ RateLimiter.acquire 10 after_second
         = (Ok None, RateLimiter.set_requests limiter [10%Q]).
Proof.
  split; [vm_compute; reflexivity|].
  do 2 eexists. repeat split; vm_compute; reflexivity.
Qed.

(** ** Version ordering *)

Section Versions.
Context `{Runtime}.

Lemma newer_first_total x y : newer_first x y = true \/ newer_first y x = true.
Proof. unfold newer_first. rewrite !Z.leb_le. lia. Qed.

Lemma newer_or_same_trans : Transitive newer_or_same.
Proof. intros x y z. unfold newer_or_same. lia. Qed.

Lemma sorted_newer_first versions :
  StronglySorted newer_or_same (sorted newer_first versions).
Proof.
  apply Sorted.Sorted_StronglySorted; [exact newer_or_same_trans|].
  apply (Sorted_weaken (le_rel newer_first));
    [|apply sorted_Sorted, newer_first_total].
  intros x y Hxy. unfold le_rel, newer_first in Hxy.
  unfold newer_or_same. lia.
Qed.

Lemma sort_versions_sorted versions sorted_versions :
  sort_versions versions = Ok sorted_versions ->
  StronglySorted newer_or_same sorted_versions
  /\ sorted_versions ≡ₚ versions.
Proof.
  unfold sort_versions. destruct (comparable versions); [|done].
  intros [= <-]. split; [apply sorted_newer_first|apply sorted_perm].
Qed.

Lemma versions_returned modpack_id game_version self w versions self' w' :
  get_modpack_versions modpack_id game_version self w
  = (Ok versions, self', w') ->
  StronglySorted newer_or_same versions.
Proof.
  unfold get_modpack_versions.
  destruct (_make_request _ _ self w) as [[[response|e] self1] w1];
    simpl; [|done].
  destruct (get response "data" (JArr [])) as [files|e]; simpl; [|done].
  destruct (truthy files); simpl.
  - destruct (iter files) as [items|e]; simpl; [|done].
    destruct (versions_loop items) as [parsed|e]; simpl; [|done].
    destruct (sort_versions parsed) as [sorted_versions|e] eqn:Hsort; [|done].
    intros [= <- _ _]. by apply sort_versions_sorted in Hsort as [? _].
  - intros [= <- _ _]. constructor.
Qed.

Lemma versions_no_files modpack_id game_version self w response files self' w' :
  _make_request ("/mods/" +:+ pretty modpack_id +:+ "/files")
    (versions_params game_version) self w = (Ok response, self', w') ->
  get response "data" (JArr []) = Ok files ->
  truthy files = false ->
  get_modpack_versions modpack_id game_version self w = (Ok [], self', w').
Proof.
  intros Hreq Hdata Hfalsy. unfold get_modpack_versions. rewrite Hreq. simpl.
  rewrite Hdata. simpl. by rewrite Hfalsy.
Qed.

Lemma versions_of_files modpack_id game_version self w response items
    versions self' w' :
  _make_request ("/mods/" +:+ pretty modpack_id +:+ "/files")
    (versions_params game_version) self w = (Ok response, self', w') ->
  get response "data" (JArr []) = Ok (JArr items) ->
  items <> [] ->
  versions_loop items = Ok versions ->
  comparable versions = true ->
  get_modpack_versions modpack_id game_version self w
  = (Ok (sorted newer_first versions), self', w').
Proof.
  intros Hreq Hdata Hitems Hloop Hcmp. unfold get_modpack_versions.
  rewrite Hreq. cbn [result_bind]. rewrite Hdata. cbn [result_bind].
  destruct items as [|item items]; [done|].
  change (truthy (JArr (item :: items))) with true.
  change (iter (JArr (item :: items))) with (Ok (item :: items)).
  cbn [negb result_bind]. rewrite Hloop. cbn [result_bind].
  unfold sort_versions. by rewrite Hcmp.
Qed.

Lemma three_versions_order v1 v2 v3 l :
  micros (ModpackVersion.file_date v1) < micros (ModpackVersion.file_date v2) ->
  micros (ModpackVersion.file_date v2) < micros (ModpackVersion.file_date v3) ->
  l ≡ₚ [v1; v2; v3] ->
  sorted newer_first l = [v3; v2; v1].
Proof.
  intros H12 H23 Hperm.
  apply (StronglySorted_unique_strong newer_or_same).
  - intros x1 x2 Hx1 Hx2 Hle1 Hle2.
    rewrite sorted_perm, Hperm in Hx1. unfold newer_or_same in *.
    rewrite !elem_of_cons, elem_of_nil in Hx1, Hx2.
    destruct Hx1 as [->|[->|[->|[]]]], Hx2 as [->|[->|[->|[]]]];
      first [reflexivity|lia].
  - apply sorted_newer_first.
  - unfold newer_or_same. repeat constructor; lia.
  - rewrite sorted_perm, Hperm. apply (Permutation_rev [v1; v2; v3]).
Qed.

(** C6. Whenever [get_modpack_versions] returns, the versions are in
    descending order of file date.  It returns the empty sequence, without
    raising, when the entry has no files (the [data] of the response is
    missing, null or empty).  For a non-empty list of files it returns the
    parsed records sorted newest first; for three records with dates
    T1 < T2 < T3 that is [T3, T2, T1] in whatever order they come. *)
Theorem C6_versions_newest_first modpack_id game_version self w self' w' :
  (forall versions,
      get_modpack_versions modpack_id game_version self w
      = (Ok versions, self', w') ->
      StronglySorted newer_or_same versions)
  /\ (forall response files,
        _make_request ("/mods/" +:+ pretty modpack_id +:+ "/files")
          (versions_params game_version) self w = (Ok response, self', w') ->
        get response "data" (JArr []) = Ok files ->
        truthy files = false ->
        get_modpack_versions modpack_id game_version self w
        = (Ok [], self', w'))
  /\ (forall response items versions,
        _make_request ("/mods/" +:+ pretty modpack_id +:+ "/files")
          (versions_params game_version) self w = (Ok response, self', w') ->
        get response "data" (JArr []) = Ok (JArr items) ->
        items <> [] ->
        versions_loop items = Ok versions ->
        comparable versions = true ->
        get_modpack_versions modpack_id game_version self w
        = (Ok (sorted newer_first versions), self', w')
        /\ sorted newer_first versions ≡ₚ versions)
  /\ (forall v1 v2 v3 l,
        micros (ModpackVersion.file_date v1)
        < micros (ModpackVersion.file_date v2) ->
        micros (ModpackVersion.file_date v2)
        < micros (ModpackVersion.file_date v3) ->
        l ≡ₚ [v1; v2; v3] ->
        sorted newer_first l = [v3; v2; v1]).
Proof.
  split; [|split; [|split]].
  - intros versions. apply versions_returned.
  - intros response files. apply versions_no_files.
  - intros response items versions Hreq Hdata Hitems Hloop Hcmp.
    split; [by eapply versions_of_files|apply sorted_perm].
  - apply three_versions_order.
Qed.

End Versions.

Lemma C6_witness :
  let x := get_modpack_versions 5 None direct_service
             (mock_world 0 (reply 200 three_files)) in
  map ModpackVersion.id (returned x) = [3; 2; 1]
  /\ StronglySorted newer_or_same (returned x).
Proof.
  intros x. split; [vm_compute; reflexivity|].
  destruct (C6_versions_newest_first 5 None direct_service
              (mock_world 0 (reply 200 three_files))
              (snd (fst x)) (snd x)) as (Hsorted & _).
  apply Hsorted. vm_compute. reflexivity.
Defined.

(** ** Cache hits *)

Lemma acquire_admits now self :
  0 < RateLimiter.max_requests self ->
  exists slept self', RateLimiter.acquire now self = (Ok slept, self').
Proof.
  intros Hmax. unfold RateLimiter.acquire.
  cbn [RateLimiter.requests RateLimiter.max_requests
       RateLimiter.window_seconds RateLimiter.set_requests].
  set (kept := List.filter _ _). clearbody kept.
  destruct (Z.of_nat (length kept) >=? RateLimiter.max_requests self) eqn:Hfull;
    [|by eauto].
  apply Z.geb_le in Hfull.
  destruct kept as [|oldest kept]; [simpl in Hfull; lia|].
  simpl. by eauto.
Qed.

Section CacheHit.
Context `{Runtime}.
Variables (search_term : string) (category_filter : option string).
Variables (sort_field sort_order : string) (page_size index : Z).

Let search := search_modpacks search_term category_filter sort_field
                sort_order page_size index.
Let search_params := search_params search_term sort_field sort_order
                       page_size index.
Let request := _make_request "/mods/search" search_params.

Lemma search_after_request self w r self' w' :
  is_api_available self = true ->
  request self w = (r, self', w') ->
  search self w
  = (match (let? response := r in
            let? data := get response "data" (JArr []) in
            let? items := iter data in
            search_loop category_filter items) with
     | Ok modpacks => Ok modpacks
     | Raise _ => Ok (fallback_modpacks search_term page_size)
     end, self', w').
Proof.
  intros Hkey Hreq. unfold search, search_modpacks. rewrite Hkey.
  cbn [negb]. unfold search_direct. fold search_params. fold request.
  rewrite Hreq. by destruct (result_bind r _).
Qed.

(** The first call misses, is admitted, and the upstream answers with a
    success status and a body that decodes to [d]. *)
Lemma request_fetches self w c response d :
  client self = Some c ->
  0 < RateLimiter.max_requests (rate_limiter self) ->
  fst (_get_cached_data (clock w)
         (_get_cache_key "/mods/search" search_params) self) = JNull ->
  result_of (server w (sent w)
               {| via := c; url := "/mods/search"; params := search_params |})
  = Reply response ->
  status_code response < 400 ->
  json_body response = Some d ->
  exists self1 w1,
    request self w
    = (Ok d,
       store_at (clock w1) (_get_cache_key "/mods/search" search_params)
         d 300 self1,
       w1)
    /\ client self1 = Some c
    /\ api_key self1 = api_key self
    /\ sent w1
       = sent w
         ++ [ {| via := c; url := "/mods/search"; params := search_params |} ].
Proof.
  intros Hc Hmax Hmiss Hanswer Hstatus Hbody.
  destruct (acquire_admits (clock w) (rate_limiter self) Hmax)
    as (slept & rl & Hacq).
  unfold request. rewrite (make_request_miss _ _ _ _ c slept rl Hc Hmiss Hacq).
  destruct (get_cached_frame (clock w)
              (_get_cache_key "/mods/search" search_params) self)
    as (Hkey & _ & Hclient).
  unfold http_get. cbn [fst snd].
  rewrite server_from_option, sent_from_option, Hanswer.
  rewrite (receive_stores _ _ _ d) by done.
  do 2 eexists. split; [reflexivity|].
  unfold set_rate_limiter. cbn [client api_key sent].
  by rewrite Hclient, Hkey, Hc.
Qed.

(** C7. On a cache hit the pipeline returns the cached payload and leaves
    the service (so the recorded admissions of the limiter) and the world
    (so the requests sent, and the clock) as they were.  When a search
    misses the cache and the upstream answers it with a success status and
    a JSON body other than null, the same search repeated up to 300 seconds
    later returns the same result sequence, leaves the service, and with it
    the limiter, unchanged, and sends no request: the one request of the
    first call stays the only one. *)
Theorem C7_cache_hit_is_free :
  (forall endpoint params self w c e,
      client self = Some c ->
      cache self !! _get_cache_key endpoint params = Some e ->
      (clock w <= CacheEntry.expires_at e)%Q ->
      is_None (CacheEntry.data e) = false ->
      _make_request endpoint params self w = (Ok (CacheEntry.data e), self, w))
  /\ (forall self w c response d (elapsed : Q),
        is_api_available self = true ->
        client self = Some c ->
        0 < RateLimiter.max_requests (rate_limiter self) ->
        fst (_get_cached_data (clock w)
               (_get_cache_key "/mods/search" search_params) self) = JNull ->
        result_of (server w (sent w)
                     {| via := c; url := "/mods/search";
                        params := search_params |})
        = Reply response ->
        status_code response < 400 ->
        json_body response = Some d ->
        is_None d = false ->
        (0 <= elapsed)%Q -> (elapsed <= 300)%Q ->
        let first := search self w in
        let self1 := snd (fst first) in
        let w1 := sleep elapsed (snd first) in
        let second := search self1 w1 in
        second = (fst (fst first), self1, w1)
        /\ fst (fst second) = fst (fst first)
        /\ rate_limiter (snd (fst second)) = rate_limiter self1
        /\ sent (snd second) = sent (snd first)
        /\ sent (snd first)
           = sent w
             ++ [ {| via := c; url := "/mods/search";
                     params := search_params |} ]).
Proof.
  split; [exact make_request_hit|].
  intros self w c response d elapsed Hkey Hc Hmax Hmiss Hanswer Hstatus Hbody
    Hd Hpos Httl first self1 w1 second.
  destruct (request_fetches self w c response d Hc Hmax Hmiss Hanswer Hstatus
              Hbody) as (self0 & w0 & Hreq & Hc0 & Hkey0 & Hsent).
  assert (Hfirst := search_after_request self w _ _ _ Hkey Hreq).
  assert (second = (fst (fst first), self1, w1)) as Hsecond.
  { subst second self1 w1 first. rewrite Hfirst. cbn [fst snd].
    apply search_after_request.
    - unfold is_api_available in *. cbn. by rewrite Hkey0.
    - unfold request.
      rewrite (make_request_hit _ _ _ _ c (entry_at (clock w0) d 300)).
      + reflexivity.
      + cbn. by rewrite Hc0.
      + apply lookup_cache_data.
      + cbn. unfold inject_Z. lra.
      + exact Hd. }
  split; [exact Hsecond|]. rewrite Hsecond. cbn [fst snd].
  split; [done|]. split; [done|]. split; [done|].
  subst first. rewrite Hfirst. exact Hsent.
Qed.

End CacheHit.

Lemma C7_witness :
  let w := mock_world 0 (reply 200 one_modpack) in
  let first :=
    search_modpacks "" None "Popularity" "desc" 20 0 direct_service w in
  let second :=
    search_modpacks "" None "Popularity" "desc" 20 0
      (snd (fst first)) (sleep 120 (snd first)) in
  fst (fst second) = fst (fst first)
  /\ rate_limiter (snd (fst second)) = rate_limiter (snd (fst first))
  /\ length (sent (snd second)) = 1%nat.
Proof.
  intros w first second.
  destruct (C7_cache_hit_is_free "" None "Popularity" "desc" 20 0)
    as [_ Hscenario].
  assert (0 <= 120)%Q as Hpos by (unfold Qle; simpl; lia).
  assert (120 <= 300)%Q as Httl by (unfold Qle; simpl; lia).
  destruct (Hscenario direct_service w _ _ _ 120%Q eq_refl eq_refl eq_refl
              (fresh_service_miss _ _ _) eq_refl eq_refl eq_refl eq_refl
              Hpos Httl)
    as (_ & Hresult & Hlimiter & Hsent & Hfirst).
  split; [exact Hresult|]. split; [exact Hlimiter|].
  unfold second, first. rewrite Hsent, Hfirst. reflexivity.
Defined.

(** ** Normalization *)

Lemma result_bind_ok {A B} (r : result A) (k : A -> result B) b :
  result_bind r k = Ok b <-> exists a, r = Ok a /\ k a = Ok b.
Proof.
  destruct r as [a|e]; simpl; split.
  - intros Hk. by exists a.
  - by intros (a' & [= ->] & Hk).
  - done.
  - by intros (a' & [=] & _).
Qed.


Section Normalization.
Context `{Runtime}.























End Normalization.




(** The handler of the loops logs [mod_data.get('id', 'unknown')]: a
    record that is not an object fails there again, outside the [try], and
    takes the batch with it. *)
Remark non_object_record_fails_the_batch :
  search_loop None [JNull; JObj [("id", JNum 7); ("name", JStr "Skyfactory")]]
  = Raise (Exception AttributeError Opaque
             (Some (Exception TypeError Opaque None))).
Proof. vm_compute. reflexivity. Qed.

(** ** The URL probe: file names *)

Lemma append_cons a s t : String a s +:+ t = String a (s +:+ t).
Proof. reflexivity. Qed.

Lemma append_nil t : "" +:+ t = t.
Proof. reflexivity. Qed.

Lemma split_on_nonempty c s : split_on c s <> [].
Proof.
  destruct s as [|a s]; simpl; [done|].
  destruct (split_on c s); [done|]. by destruct (Ascii.eqb a c).
Qed.

Lemma split_on_app c s1 s2 :
  split_on c (s1 +:+ String c s2) = split_on c s1 ++ split_on c s2.
Proof.
  induction s1 as [|a s1 IH].
  - rewrite append_nil. simpl. rewrite Ascii.eqb_refl.
    destruct (split_on c s2) eqn:E; [by apply split_on_nonempty in E|done].
  - rewrite append_cons. simpl. rewrite IH.
    destruct (split_on c s1) eqn:E; [by apply split_on_nonempty in E|].
    simpl. by destruct (Ascii.eqb a c).
Qed.

Lemma split_on_absent c s : mentions c s = false -> split_on c s = [s].
Proof.
  induction s as [|a s IH]; simpl; [done|].
  intros [Ha Hs]%orb_false_iff. rewrite (IH Hs). by rewrite Ha.
Qed.

Lemma last_app_nonempty {A} (l1 l2 : list A) d :
  l2 <> [] -> List.last (l1 ++ l2) d = List.last l2 d.
Proof.
  intros Hne. induction l1 as [|x l1 IH]; [done|].
  simpl. rewrite IH. destruct (l1 ++ l2) eqn:E; [|done].
  by apply app_eq_nil in E as [_ ->].
Qed.

Lemma last_segment_whole url :
  mentions "/"%char url = false -> last_segment url = url.
Proof. intros Hno. unfold last_segment. by rewrite (split_on_absent _ _ Hno). Qed.

Lemma last_segment_after_slash pre name :
  mentions "/"%char name = false ->
  last_segment (pre +:+ String "/"%char name) = name.
Proof.
  intros Hno. unfold last_segment. rewrite split_on_app.
  rewrite last_app_nonempty by apply split_on_nonempty.
  by rewrite (split_on_absent _ _ Hno).
Qed.

Lemma until_semicolon_app a b :
  mentions ";"%char a = false ->
  until_semicolon (a +:+ b) = a +:+ until_semicolon b.
Proof.
  induction a as [|c a IH]; [done|]. rewrite append_cons. simpl.
  intros [Hc Ha]%orb_false_iff. rewrite Hc, (IH Ha). by rewrite append_cons.
Qed.

Lemma until_semicolon_end tail :
  ends_value tail = true -> until_semicolon tail = "".
Proof. destruct tail as [|c tail]; simpl; [done|]. by intros ->. Qed.

Lemma only_quotes_no_semicolon q :
  only_quotes q = true -> mentions ";"%char q = false.
Proof.
  induction q as [|c q IH]; simpl; [done|].
  intros [Hc Hq]%andb_true_iff. rewrite (IH Hq), orb_false_r.
  unfold is_quote in Hc. apply orb_true_iff in Hc as [Hc|Hc];
    apply Ascii.eqb_eq in Hc; by subst.
Qed.

Lemma lstrip_quotes_app q s :
  only_quotes q = true -> lstrip_quotes (q +:+ s) = lstrip_quotes s.
Proof.
  induction q as [|c q IH]; [done|]. rewrite append_cons. simpl.
  intros [-> Hq]%andb_true_iff. by apply IH.
Qed.

Lemma rstrip_quotes_only q : only_quotes q = true -> rstrip_quotes q = "".
Proof.
  induction q as [|c q IH]; simpl; [done|].
  intros [-> Hq]%andb_true_iff. by rewrite (IH Hq).
Qed.

Lemma rstrip_quotes_app s q :
  only_quotes q = true -> rstrip_quotes (s +:+ q) = rstrip_quotes s.
Proof.
  intros Hq. induction s as [|c s IH].
  - rewrite append_nil. by apply rstrip_quotes_only.
  - rewrite append_cons. simpl. by rewrite IH.
Qed.

Lemma no_quote_cons c s :
  no_quote (String c s) <-> is_quote c = false /\ no_quote s.
Proof.
  unfold no_quote, is_quote. simpl. rewrite !orb_false_iff. tauto.
Qed.

Lemma lstrip_quotes_keeps name rest :
  name <> "" -> no_quote name ->
  lstrip_quotes (name +:+ rest) = name +:+ rest.
Proof.
  destruct name as [|c name]; [done|]. intros _ [Hc _]%no_quote_cons.
  rewrite append_cons. simpl. by rewrite Hc.
Qed.

Lemma rstrip_quotes_keeps name : no_quote name -> rstrip_quotes name = name.
Proof.
  induction name as [|c name IH]; [done|].
  intros [Hc Hname]%no_quote_cons. simpl. rewrite (IH Hname), Hc.
  by destruct name.
Qed.

Lemma strip_quotes_quoted q1 name q2 :
  only_quotes q1 = true -> only_quotes q2 = true ->
  name <> "" -> no_quote name ->
  strip_quotes (q1 +:+ name +:+ q2) = name.
Proof.
  intros Hq1 Hq2 Hne Hname. unfold strip_quotes.
  rewrite (lstrip_quotes_app _ _ Hq1), (lstrip_quotes_keeps _ _ Hne Hname).
  rewrite (rstrip_quotes_app _ _ Hq2). by apply rstrip_quotes_keeps.
Qed.

Lemma append_not_empty a b : a <> "" -> a +:+ b <> "".
Proof. by destruct a. Qed.

Lemma after_prefix_app p r : after_prefix p (p +:+ r) = Some r.
Proof.
  induction p as [|a p IH]; [done|].
  rewrite append_cons. simpl. by rewrite Ascii.eqb_refl.
Qed.

(** The word [filename] has no border, so a match of the pattern cannot
    start in a text that does not hold the word and run over its end into
    the word that follows. *)
Lemma after_prefix_straddle pre rest :
  pre <> "" ->
  (forall post, pre <> "filename" +:+ post) ->
  after_prefix "filename" (pre +:+ "filename" +:+ rest) = None.
Proof.
  intros Hne Hpre.
  destruct pre as [|a1 pre]; [done|].
  rewrite append_cons. cbn [after_prefix].
  destruct (Ascii.eqb_spec "f"%char a1) as [<-|]; [|done].
  destruct pre as [|a2 pre]; [reflexivity|].
  rewrite append_cons. cbn [after_prefix].
  destruct (Ascii.eqb_spec "i"%char a2) as [<-|]; [|done].
  destruct pre as [|a3 pre]; [reflexivity|].
  rewrite append_cons. cbn [after_prefix].
  destruct (Ascii.eqb_spec "l"%char a3) as [<-|]; [|done].
  destruct pre as [|a4 pre]; [reflexivity|].
  rewrite append_cons. cbn [after_prefix].
  destruct (Ascii.eqb_spec "e"%char a4) as [<-|]; [|done].
  destruct pre as [|a5 pre]; [reflexivity|].
  rewrite append_cons. cbn [after_prefix].
  destruct (Ascii.eqb_spec "n"%char a5) as [<-|]; [|done].
  destruct pre as [|a6 pre]; [reflexivity|].
  rewrite append_cons. cbn [after_prefix].
  destruct (Ascii.eqb_spec "a"%char a6) as [<-|]; [|done].
  destruct pre as [|a7 pre]; [reflexivity|].
  rewrite append_cons. cbn [after_prefix].
  destruct (Ascii.eqb_spec "m"%char a7) as [<-|]; [|done].
  destruct pre as [|a8 pre]; [reflexivity|].
  rewrite append_cons. cbn [after_prefix].
  destruct (Ascii.eqb_spec "e"%char a8) as [<-|]; [|done].
  by destruct (Hpre pre).
Qed.

(** The search passes over a text that does not hold the word. *)
Lemma search_filename_prefix pre rest :
  contains "filename" pre = false ->
  search_filename (pre +:+ "filename" +:+ rest)
  = search_filename ("filename" +:+ rest).
Proof.
  induction pre as [|a pre IH]; [by rewrite append_nil|].
  intros Hword.
  change (contains "filename" (String a pre))
    with (String.prefix "filename" (String a pre) || contains "filename" pre)
    in Hword.
  apply orb_false_iff in Hword as [Hhere Hword].
  assert (filename_here (String a pre +:+ "filename" +:+ rest) = None)
    as Hnone.
  { unfold filename_here. rewrite after_prefix_straddle; [done|done|].
    intros post Hpost.
    assert (String.prefix "filename" (String a pre) = true) as Htrue.
    { apply prefix_spec. by exists post. }
    congruence. }
  rewrite append_cons in *. cbn [search_filename]. rewrite Hnone.
  by apply IH.
Qed.

(** The group that the pattern captures after the first [filename=] or
    [filename*=]. *)
Lemma search_filename_named pre (star : bool) value tail :
  contains "filename" pre = false ->
  value <> "" ->
  mentions ";"%char value = false ->
  ends_value tail = true ->
  search_filename
    (pre +:+ "filename" +:+ (if star then "*" else "") +:+ "="
     +:+ value +:+ tail)
  = Some value.
Proof.
  intros Hword Hne Hsemi Htail.
  assert (until_semicolon (value +:+ tail) = value) as Hgroup.
  { rewrite (until_semicolon_app _ _ Hsemi), (until_semicolon_end _ Htail).
    clear. induction value as [|c v IH]; [done|].
    by rewrite append_cons, IH. }
  set (rest := (if star then "*" else "") +:+ "=" +:+ value +:+ tail).
  rewrite search_filename_prefix by done.
  assert (filename_here ("filename" +:+ rest) = Some value) as Hhere.
  { unfold filename_here. rewrite after_prefix_app. subst rest.
    destruct star.
    - change ("*" +:+ "=" +:+ value +:+ tail)
        with (String "*"%char (String "="%char (value +:+ tail))).
      cbn [Ascii.eqb Bool.eqb]. rewrite Hgroup.
      destruct (String.eqb_spec value ""); done.
    - change ("" +:+ "=" +:+ value +:+ tail)
        with (String "="%char (value +:+ tail)).
      cbn [Ascii.eqb Bool.eqb]. rewrite Hgroup.
      destruct (String.eqb_spec value ""); done. }
  destruct ("filename" +:+ rest) eqn:E; cbn [search_filename];
    by rewrite Hhere.
Qed.

(** ** The URL probe: outcomes *)

Section Probe.
Context `{Builtins}.

(** What a successful validation consists of. *)
Lemma validate_ok url self web info self' web' :
  validate_custom_modpack_url url self web = (Ok info, self', web') ->
  exists response,
    host web (probed web) url = HeadReply response
    /\ head_status response < 400
    /\ UrlInfo.file_name info = probe_file_name url (head_headers response)
    /\ probe_file_size (assoc "content-length" (head_headers response))
       = Ok (UrlInfo.file_size info)
    /\ UrlInfo.content_type info
       = default "" (assoc "content-type" (head_headers response))
    /\ UrlInfo.url info = head_url response
    /\ UrlInfo.accessible info = true
    /\ self' = self
    /\ probed web' = probed web ++ [url].
Proof.
  unfold validate_custom_modpack_url, http_head.
  destruct (client self); [|done].
  destruct (host web (probed web) url) as [response|e]; [|done].
  destruct (Z.geb_spec (head_status response) 400); [done|].
  destruct (probe_file_size _) as [n|e] eqn:Hsize; [|done].
  cbn [result_bind]. intros [= <- <- <-]. exists response.
  by repeat split.
Qed.

(** X1. When the answer to the probe has no [content-disposition] header,
    or one in which the pattern finds no file name, the file name of a
    validated URL is the text after the last slash of the URL as given: the
    whole URL when it has no slash, and the empty string when it ends in
    one. *)
Theorem url_names_the_file url self web info self' web' response :
  validate_custom_modpack_url url self web = (Ok info, self', web') ->
  host web (probed web) url = HeadReply response ->
  (forall cd_header,
      assoc "content-disposition" (head_headers response) = Some cd_header ->
      search_filename cd_header = None) ->
  (mentions "/"%char url = false -> UrlInfo.file_name info = url)
  /\ (forall pre name,
        url = pre +:+ String "/"%char name ->
        mentions "/"%char name = false ->
        UrlInfo.file_name info = name).
Proof.
  intros (response' & Hhost & _ & -> & _)%validate_ok Hanswer Hheader.
  rewrite Hanswer in Hhost. injection Hhost as <-.
  assert (probe_file_name url (head_headers response) = last_segment url)
    as ->.
  { unfold probe_file_name.
    destruct (assoc "content-disposition" _) as [cd|]; [|done].
    by rewrite (Hheader cd). }
  split.
  - apply last_segment_whole.
  - intros pre name -> Hname. by apply last_segment_after_slash.
Qed.

(** X2. A [content-disposition] header names the file by its first
    [filename=NAME] or [filename*=NAME], whatever text without the word
    [filename] comes before it ([attachment; ], [inline; ], nothing at
    all), with or without quote characters around the name, and whatever
    follows after a semicolon: the file name is NAME whatever the URL, for
    every non-empty NAME free of semicolons and quote characters.  (So the
    value of a [filename*=] parameter is taken as it stands, its charset
    prefix included.) *)
Theorem header_names_the_file url self web info self' web' response
    pre (star : bool) q1 name q2 tail :
  validate_custom_modpack_url url self web = (Ok info, self', web') ->
  host web (probed web) url = HeadReply response ->
  assoc "content-disposition" (head_headers response)
  = Some (pre +:+ "filename" +:+ (if star then "*" else "") +:+ "="
          +:+ (q1 +:+ name +:+ q2) +:+ tail) ->
  contains "filename" pre = false ->
  only_quotes q1 = true -> only_quotes q2 = true ->
  name <> "" -> mentions ";"%char name = false -> no_quote name ->
  ends_value tail = true ->
  UrlInfo.file_name info = name.
Proof.
  intros (response' & Hhost & _ & -> & _)%validate_ok Hanswer Hheader
    Hword Hq1 Hq2 Hne Hsemi Hquote Htail.
  rewrite Hanswer in Hhost. injection Hhost as <-.
  unfold probe_file_name. rewrite Hheader.
  rewrite search_filename_named; [|done|..|done].
  - by apply strip_quotes_quoted.
  - destruct q1; [rewrite append_nil; by apply append_not_empty|].
    by rewrite append_cons.
  - clear -Hq1 Hq2 Hsemi.
    apply only_quotes_no_semicolon in Hq1, Hq2.
    assert (forall a b, mentions ";"%char a = false ->
                        mentions ";"%char b = false ->
                        mentions ";"%char (a +:+ b) = false) as Happ.
    { intros a b Ha Hb. induction a as [|c a IH]; [done|].
      rewrite append_cons. simpl in *.
      apply orb_false_iff in Ha as [-> Ha]. by apply IH. }
    by repeat apply Happ.
Qed.

(** X3. A validation never touches the cache or the limiter and is never
    answered from the cache.  On a service that is not inside its context
    manager it raises the initialisation error and probes nothing;
    otherwise it sends its one [HEAD].  A status of 400 or more raises a
    [ModpackServiceError] that names the status; a transport exception of
    [httpx] comes out wrapped in a [ModpackServiceError], with the original
    as context. *)
Theorem probe_outcomes url self web :
  let r := validate_custom_modpack_url url self web in
  snd (fst r) = self
  /\ (client self = None ->
      r = (Raise (Exception ModpackServiceError
                    (Lit "Service not initialized. Use async context manager.")
                    None), self, web))
  /\ (client self <> None ->
      probed (snd r) = probed web ++ [url]
      /\ (forall response,
            host web (probed web) url = HeadReply response ->
            400 <= head_status response ->
            fst (fst r)
            = Raise (Exception ModpackServiceError
                       (Lit ("URL not accessible: HTTP "
                             +:+ pretty (head_status response))) None))
      /\ (forall e,
            host web (probed web) url = HeadFault e ->
            exn_class e = ConnectError \/ exn_class e = TimeoutException
            \/ exn_class e = HTTPError ->
            fst (fst r)
            = Raise (Exception ModpackServiceError
                       (Fmt "Failed to validate URL: " (str_exn e))
                       (Some e)))).
Proof.
  unfold validate_custom_modpack_url, http_head.
  destruct (client self) as [c|]; [|done].
  split; [|split; [done|]].
  - destruct (host web (probed web) url) as [response|e]; [|done].
    by destruct (head_status response >=? 400).
  - intros _. split; [|split].
    + destruct (host web (probed web) url) as [response|e]; [|done].
      by destruct (head_status response >=? 400).
    + intros response -> Hstatus.
      destruct (Z.geb_spec (head_status response) 400); [done|lia].
    + intros e -> Hclass. unfold probe_error.
      by destruct Hclass as [->|[->| ->]].
Qed.

(** X4. A [content-length] header that [int] rejects makes the validation
    raise the [ValueError] of [int] itself, not a [ModpackServiceError],
    and [create_custom_modpack] passes it on; a missing or empty
    [content-length] gives the size 0. *)
Theorem content_length_decides_the_size url self web c response :
  client self = Some c ->
  host web (probed web) url = HeadReply response ->
  head_status response < 400 ->
  let content_length := assoc "content-length" (head_headers response) in
  (forall v,
      content_length = Some v -> v <> "" -> py_int v = None ->
      fst (fst (validate_custom_modpack_url url self web))
      = Raise (Exception ValueError Opaque None)
      /\ forall name description mod_loader game_version,
          fst (fst (create_custom_modpack name url description mod_loader
                      game_version self web))
          = Raise (Exception ValueError Opaque None))
  /\ (content_length = None \/ content_length = Some "" ->
      exists info,
        fst (fst (validate_custom_modpack_url url self web)) = Ok info
        /\ UrlInfo.file_size info = 0)
  /\ (forall v n,
        content_length = Some v -> v <> "" -> py_int v = Some n ->
        exists info,
          fst (fst (validate_custom_modpack_url url self web)) = Ok info
          /\ UrlInfo.file_size info = n).
Proof.
  intros Hc Hanswer Hstatus content_length. subst content_length.
  unfold create_custom_modpack, validate_custom_modpack_url, http_head.
  rewrite Hc, Hanswer.
  destruct (Z.geb_spec (head_status response) 400); [lia|].
  split; [|split].
  - intros v -> Hv%String.eqb_neq Hint. cbn. by rewrite Hv, Hint.
  - intros [-> | ->]; by eexists.
  - intros v n -> Hv%String.eqb_neq Hint. cbn. rewrite Hv, Hint. by eexists.
Qed.

(** X5. [create_custom_modpack] succeeds exactly when the validation of
    its URL does, and raises what the validation raises.  The source it
    returns has the URL the redirects ended at as download URL (not the URL
    it was given), the file name the validation found, the kind [url], and
    the name, description, loader and game version as given. *)
Theorem custom_source_follows_the_probe name url description mod_loader
    game_version self web :
  (forall info self' web' response,
      validate_custom_modpack_url url self web = (Ok info, self', web') ->
      host web (probed web) url = HeadReply response ->
      create_custom_modpack name url description mod_loader game_version
        self web
      = (Ok {| CustomModpackSource.name := name;
               CustomModpackSource.description := description;
               CustomModpackSource.download_url := head_url response;
               CustomModpackSource.file_name := UrlInfo.file_name info;
               CustomModpackSource.mod_loader := mod_loader;
               CustomModpackSource.game_version := game_version;
               CustomModpackSource.source_type := "url" |}, self', web'))
  /\ (forall e self' web',
        validate_custom_modpack_url url self web = (Raise e, self', web') ->
        create_custom_modpack name url description mod_loader game_version
          self web = (Raise e, self', web')).
Proof.
  split.
  - intros info self' web' response Hok Hanswer.
    unfold create_custom_modpack. rewrite Hok. cbn [result_bind].
    apply validate_ok in Hok as (response' & Hhost & _ & _ & _ & _ & -> & _).
    rewrite Hanswer in Hhost. by injection Hhost as <-.
  - intros e self' web' Hraise. unfold create_custom_modpack.
    by rewrite Hraise.
Qed.

End Probe.

Lemma url_names_the_file_witness :
  exists info,
    fst (fst (validate_custom_modpack_url pack_url direct_service
                (mock_web (HeadReply plain_answer)))) = Ok info
    /\ UrlInfo.file_name info = "pack.zip".
Proof.
  eexists. split; [vm_compute; reflexivity|].
  set (web := mock_web (HeadReply plain_answer)).
  set (x := validate_custom_modpack_url pack_url direct_service web).
  destruct (url_names_the_file pack_url direct_service web
              {| UrlInfo.file_name := "pack.zip";
                 UrlInfo.file_size := 1024;
                 UrlInfo.content_type := "";
                 UrlInfo.url := "https://cdn.example.org/pack.zip";
                 UrlInfo.accessible := true |}
              (snd (fst x)) (snd x) plain_answer) as [_ Hname].
  - vm_compute. reflexivity.
  - reflexivity.
  - intros cd_header Hcd. vm_compute in Hcd. discriminate.
  - exact (Hname "https://example.org/files" "pack.zip" eq_refl eq_refl).
Defined.

Lemma header_names_the_file_witness :
  exists info,
    fst (fst (validate_custom_modpack_url pack_url direct_service
                (mock_web (HeadReply named_answer)))) = Ok info
    /\ UrlInfo.file_name info = "skyfactory.zip".
Proof.
  eexists. split; [vm_compute; reflexivity|].
  set (web := mock_web (HeadReply named_answer)).
  set (x := validate_custom_modpack_url pack_url direct_service web).
  apply (header_names_the_file pack_url direct_service web
           {| UrlInfo.file_name := "skyfactory.zip";
              UrlInfo.file_size := 0;
              UrlInfo.content_type := "";
              UrlInfo.url := "https://cdn.example.org/pack.zip";
              UrlInfo.accessible := true |}
           (snd (fst x)) (snd x) named_answer "attachment; " false ""
           "skyfactory.zip" "" "; size=1").
  - vm_compute. reflexivity.
  - reflexivity.
  - reflexivity.
  - reflexivity.
  - reflexivity.
  - reflexivity.
  - discriminate.
  - reflexivity.
  - split; reflexivity.
  - reflexivity.
Defined.

Lemma content_length_decides_the_size_witness :
  fst (fst (validate_custom_modpack_url pack_url direct_service
              (mock_web (HeadReply garbled_answer))))
  = Raise (Exception ValueError Opaque None).
Proof.
  set (web := mock_web (HeadReply garbled_answer)).
  edestruct (content_length_decides_the_size pack_url direct_service web)
    as (Hbad & _).
  - reflexivity.
  - reflexivity.
  - reflexivity.
  - by apply (Hbad "12abc").
Defined.

Lemma custom_source_follows_the_probe_witness :
  fst (fst (create_custom_modpack "Sky" pack_url "" (Some "Forge") None
              direct_service (mock_web (HeadReply plain_answer))))
  = Ok {| CustomModpackSource.name := "Sky";
          CustomModpackSource.description := "";
          CustomModpackSource.download_url := "https://cdn.example.org/pack.zip";
          CustomModpackSource.file_name := "pack.zip";
          CustomModpackSource.mod_loader := Some "Forge";
          CustomModpackSource.game_version := None;
          CustomModpackSource.source_type := "url" |}.
Proof.
  set (web := mock_web (HeadReply plain_answer)).
  set (x := validate_custom_modpack_url pack_url direct_service web).
  destruct (custom_source_follows_the_probe "Sky" pack_url "" (Some "Forge")
              None direct_service web) as [Hok _].
  rewrite (Hok {| UrlInfo.file_name := "pack.zip";
                  UrlInfo.file_size := 1024;
                  UrlInfo.content_type := "";
                  UrlInfo.url := "https://cdn.example.org/pack.zip";
                  UrlInfo.accessible := true |}
             (snd (fst x)) (snd x) plain_answer).
  - reflexivity.
  - vm_compute. reflexivity.
  - reflexivity.
Defined.

(** ** The cache as a store *)

Lemma filter_length_perm {A} (f : A -> bool) (l1 l2 : list A) :
  l1 ≡ₚ l2 -> length (List.filter f l1) = length (List.filter f l2).
Proof.
  induction 1 as [|x l1 l2 _ IH|x y l|l1 l2 l3 _ IH1 _ IH2]; simpl.
  - done.
  - destruct (f x); simpl; by rewrite IH.
  - by destruct (f x), (f y).
  - by rewrite IH1.
Qed.

Lemma cache_values_insert self key e :
  cache self !! key = None ->
  cache_values (set_cache self (<[key:=e]> (cache self)))
  ≡ₚ e :: cache_values self.
Proof.
  intros Hfresh. unfold cache_values. simpl.
  by rewrite (map_to_list_insert _ _ _ Hfresh).
Qed.

Lemma cache_values_delete self key e :
  cache self !! key = Some e ->
  cache_values self
  ≡ₚ e :: cache_values (set_cache self (delete key (cache self))).
Proof.
  intros Hkey. unfold cache_values. simpl.
  by rewrite <- (map_to_list_delete _ _ _ Hkey).
Qed.

(** X6. The statistics count every stored entry once: the total is the
    number of keys, and it splits into the expired entries and the active
    ones.  The statistics do not evict; a lookup does: the lookup of an
    expired key takes one off the total and one off the expired count and
    leaves the active count.  A store under a new key with a time to live
    that is not negative adds one to the total and one to the active count
    when it returns, as it does for a time to live of up to a day; when
    the construction of the entry raises [OverflowError], as it does for a
    time to live as long as the range of [datetime], the statistics stay
    as they were. *)
Theorem cache_stats_account `{Runtime} now self :
  let stats := get_cache_stats now self in
  CacheStats.total_entries stats = Z.of_nat (size (cache self))
  /\ CacheStats.total_entries stats
     = CacheStats.active_entries stats + CacheStats.expired_entries stats
  /\ 0 <= CacheStats.active_entries stats
  /\ 0 <= CacheStats.expired_entries stats
  /\ (forall key e,
        cache self !! key = Some e ->
        CacheEntry.is_expired now e = true ->
        let stats' :=
          get_cache_stats now (snd (_get_cached_data now key self)) in
        CacheStats.total_entries stats' = CacheStats.total_entries stats - 1
        /\ CacheStats.expired_entries stats'
           = CacheStats.expired_entries stats - 1
        /\ CacheStats.active_entries stats' = CacheStats.active_entries stats)
  /\ (forall key d ttl,
        cache self !! key = None ->
        0 <= ttl ->
        let run := _cache_data now key d ttl self in
        let stats' := get_cache_stats now (snd run) in
        (fst run = Ok tt ->
         CacheStats.total_entries stats' = CacheStats.total_entries stats + 1
         /\ CacheStats.expired_entries stats'
            = CacheStats.expired_entries stats
         /\ CacheStats.active_entries stats'
            = CacheStats.active_entries stats + 1)
        /\ (fst run <> Ok tt ->
            fst run = Raise (Exception OverflowError Opaque None)
            /\ stats' = stats)
        /\ (ttl <= 86400 -> fst run = Ok tt)
        /\ (315537897600 <= ttl -> fst run <> Ok tt)).
Proof.
  unfold get_cache_stats. cbn [CacheStats.total_entries
    CacheStats.active_entries CacheStats.expired_entries].
  split. { unfold cache_values. by rewrite length_map, length_map_to_list. }
  split; [lia|].
  assert (Hle := filter_length (CacheEntry.is_expired now) (cache_values self)).
  split; [lia|]. split; [lia|]. split.
  - intros key e Hkey Hexpired.
    unfold _get_cached_data. rewrite Hkey, Hexpired. cbn [negb snd].
    assert (Hperm := cache_values_delete self key e Hkey).
    rewrite (Permutation_length Hperm).
    rewrite (filter_length_perm _ _ _ Hperm). simpl. rewrite Hexpired.
    simpl. lia.
  - intros key d ttl Hfresh Httl. cbv zeta. split; [|split; [|split]].
    + intros Hreturns. rewrite (cache_data_returns _ _ _ _ _ Hreturns).
      cbn [snd]. unfold store_at.
      assert (Hperm := cache_values_insert self key
                         (entry_at now d ttl) Hfresh).
      rewrite (Permutation_length Hperm).
      rewrite (filter_length_perm _ _ _ Hperm). simpl.
      assert (CacheEntry.is_expired now (entry_at now d ttl) = false) as ->.
      { apply is_expired_false. simpl. unfold inject_Z, Qle, Qplus. simpl.
        nia. }
      simpl. lia.
    + intros Hraises. by rewrite (cache_data_raises _ _ _ _ _ Hraises).
    + intros Hday. rewrite cache_data_day; [done|lia].
    + intros Hfar. rewrite cache_data_overflow; [done|lia].
Qed.

Lemma cache_stats_account_witness :
  let self :=
    snd (_cache_data 0 "/mods/1?" (JStr "payload") 60 (__init__ None)) in
  CacheStats.total_entries (get_cache_stats 100 self) = 1
  /\ CacheStats.expired_entries (get_cache_stats 100 self) = 1
  /\ CacheStats.total_entries
       (get_cache_stats 100 (snd (_get_cached_data 100 "/mods/1?" self))) = 0.
Proof.
  intros self.
  destruct (cache_stats_account 100 self) as (_ & _ & _ & _ & Hevict & _).
  destruct (Hevict "/mods/1?" (entry_at 0 (JStr "payload") 60))
    as (Htotal & _).
  - vm_compute. reflexivity.
  - reflexivity.
  - split; [vm_compute; reflexivity|]. split; [vm_compute; reflexivity|].
    rewrite Htotal. vm_compute. reflexivity.
Defined.

Lemma request_goes_out `{Runtime} endpoint params self w c :
  client self = Some c ->
  0 < RateLimiter.max_requests (rate_limiter self) ->
  fst (_get_cached_data (clock w) (_get_cache_key endpoint params) self)
  = JNull ->
  sent (snd (_make_request endpoint params self w))
  = sent w ++ [ {| via := c; url := endpoint; params := params |} ].
Proof.
  intros Hc Hmax Hmiss.
  destruct (acquire_admits (clock w) (rate_limiter self) Hmax)
    as (slept & rl & Hacq).
  rewrite (make_request_miss _ _ _ _ c slept rl Hc Hmiss Hacq).
  rewrite receive_sent. cbn [http_get snd sent].
  by rewrite sent_from_option.
Qed.

(** X7. After [clear_cache] nothing is served from the cache: every lookup
    misses, the statistics are zero, and a request for whatever had been
    cached goes to the upstream again.  The limiter, the credential and the
    session are left as they were. *)
Theorem clear_cache_forgets `{Runtime} self :
  (forall now key,
      _get_cached_data now key (clear_cache self) = (JNull, clear_cache self))
  /\ (forall now,
        get_cache_stats now (clear_cache self)
        = {| CacheStats.total_entries := 0;
             CacheStats.active_entries := 0;
             CacheStats.expired_entries := 0 |})
  /\ rate_limiter (clear_cache self) = rate_limiter self
  /\ client (clear_cache self) = client self
  /\ api_key (clear_cache self) = api_key self
  /\ (forall endpoint params w c,
        client self = Some c ->
        0 < RateLimiter.max_requests (rate_limiter self) ->
        sent (snd (_make_request endpoint params (clear_cache self) w))
        = sent w ++ [ {| via := c; url := endpoint; params := params |} ]).
Proof.
  split.
  { intros now key. unfold _get_cached_data, clear_cache. simpl.
    by rewrite lookup_empty. }
  split.
  { intros now. unfold get_cache_stats, cache_values, clear_cache. simpl.
    by rewrite map_to_list_empty. }
  split; [done|]. split; [done|]. split; [done|].
  intros endpoint params w c Hc Hmax. apply request_goes_out; [done..|].
  unfold _get_cached_data, clear_cache. simpl. by rewrite lookup_empty.
Qed.

Lemma clear_cache_forgets_witness :
  let self :=
    snd (_cache_data 0 "/mods/1?" (JStr "payload") 300 direct_service) in
  fst (_get_cached_data 1 "/mods/1?" self) = JStr "payload"
  /\ length (sent (snd (_make_request "/mods/1" [] (clear_cache self)
                          (mock_world 1 (reply 200 (JStr "payload")))))) = 1%nat.
Proof.
  intros self. split; [vm_compute; reflexivity|].
  destruct (clear_cache_forgets self) as (_ & _ & _ & _ & _ & Hout).
  erewrite Hout; reflexivity.
Defined.

(** X8. A store either returns or raises the [OverflowError] of the
    construction of the entry, and then it has stored nothing; it returns
    for a time to live of up to a day and raises for one as long as the
    range of [datetime].  What a store that returns has stored under a key
    is what a lookup of that key returns until the time to live has run
    out; after that the lookup returns nothing and the key is gone.  A
    second store under the key that returns keeps the second payload and
    the second expiry only.  A store under one key does not change what
    the lookup of another key returns. *)
Theorem cache_round_trip `{Runtime} stored key d ttl self :
  let run := _cache_data stored key d ttl self in
  let self' := snd run in
  (fst run = Ok tt
   \/ fst run = Raise (Exception OverflowError Opaque None) /\ self' = self)
  /\ (-86400 <= ttl <= 86400 -> fst run = Ok tt)
  /\ (315537897600 <= Z.abs ttl -> fst run <> Ok tt)
  /\ (fst run = Ok tt ->
      (forall now,
         (now <= stored + inject_Z ttl)%Q ->
         _get_cached_data now key self' = (d, self'))
      /\ (forall now,
            (stored + inject_Z ttl < now)%Q ->
            fst (_get_cached_data now key self') = JNull
            /\ cache (snd (_get_cached_data now key self')) !! key = None)
      /\ (forall stored2 d2 ttl2,
            fst (_cache_data stored2 key d2 ttl2 self') = Ok tt ->
            _cache_data stored2 key d2 ttl2 self'
            = _cache_data stored2 key d2 ttl2 self))
  /\ (forall now key',
        key' <> key ->
        fst (_get_cached_data now key' self')
        = fst (_get_cached_data now key' self)).
Proof.
  intros run self'. subst self' run.
  split; [|split; [|split; [|split]]].
  - destruct (cache_data_cases stored key d ttl self) as [->| ->];
      [by left|by right].
  - intros Hday. by rewrite cache_data_day.
  - intros Hfar. by rewrite cache_data_overflow.
  - intros Hreturns. rewrite (cache_data_returns _ _ _ _ _ Hreturns).
    cbn [snd].
    assert (Hk := lookup_cache_data stored key d ttl self).
    split; [|split].
    + intros now Hlive. by rewrite (get_cached_live now key _ _ Hk).
    + intros now Hdead. rewrite (get_cached_expired now key _ _ Hk Hdead).
      simpl. split; [done|]. apply lookup_delete_eq.
    + intros stored2 d2 ttl2 Hsecond.
      rewrite (cache_data_returns _ _ _ _ _ Hsecond).
      assert (Hsame : fst (_cache_data stored2 key d2 ttl2 self) = Ok tt).
      { destruct (cache_data_cases stored2 key d2 ttl2
                    (store_at stored key d ttl self)) as [Hc|Hc];
          rewrite Hc in Hsecond; [|done].
        unfold _cache_data in *.
        by destruct (CacheEntry.__init__ stored2 d2 ttl2). }
      rewrite (cache_data_returns _ _ _ _ _ Hsame).
      unfold store_at, set_cache. simpl. by rewrite insert_insert_eq.
  - intros now key' Hne.
    destruct (cache_data_cases stored key d ttl self) as [->| ->];
      [|done].
    unfold _get_cached_data, store_at. simpl.
    rewrite lookup_insert_ne by done.
    destruct (cache self !! key') as [e|]; [|done].
    by destruct (CacheEntry.is_expired now e).
Qed.

Lemma cache_round_trip_witness :
  _get_cached_data 7 "/mods/1?"
    (snd (_cache_data 0 "/mods/1?" (JStr "payload") 7 (__init__ None)))
  = (JStr "payload",
     snd (_cache_data 0 "/mods/1?" (JStr "payload") 7 (__init__ None)))
  /\ _cache_data 0 "/mods/1?" (JStr "payload") 1000000000000 (__init__ None)
     = (Raise (Exception OverflowError Opaque None), __init__ None).
Proof.
  split.
  - destruct (cache_round_trip 0 "/mods/1?" (JStr "payload") 7
                (__init__ None)) as (_ & _ & _ & Hstored & _).
    destruct Hstored as (Hlive & _); [reflexivity|].
    apply Hlive. vm_compute. discriminate.
  - destruct (cache_round_trip 0 "/mods/1?" (JStr "payload") 1000000000000
                (__init__ None)) as ([Hreturns|[Hraises Hsame]] & _ & Hfar & _).
    + exfalso. apply Hfar; [vm_compute; discriminate|exact Hreturns].
    + rewrite <- Hsame at 2. rewrite <- Hraises. apply surjective_pairing.
Defined.

(** ** The limiter's window *)

Lemma fold_min_in (l : list Q) (x : Q) :
  let m := fold_left (fun best y => if Qlt_le_dec y best then y else best) l x in
  m = x \/ In m l.
Proof.
  revert x. induction l as [|y l IH]; intros x; simpl; [by left|].
  destruct (Qlt_le_dec y x).
  - destruct (IH y) as [->|Hin]; [right; by left|right; by right].
  - destruct (IH x) as [->|Hin]; [by left|right; by right].
Qed.

Lemma min_in (l : list Q) (m : Q) : Py.min l = Some m -> In m l.
Proof.
  destruct l as [|x l]; [done|]. simpl. intros [= <-].
  destruct (fold_min_in l x) as [->|Hin]; [by left|by right].
Qed.

(** X9. On a clock that has not run backwards past a recorded admission, a
    call that suspends does so for more than zero and at most
    [window_seconds] seconds, and only when the window already holds
    [max_requests] admissions; below that the call records its instant and
    returns at once. *)
Theorem suspension_is_bounded now self :
  (forall r, In r (RateLimiter.requests self) -> (r <= now)%Q) ->
  let W := inject_Z (RateLimiter.window_seconds self) in
  let kept :=
    List.filter (fun req_time => Qltb (now - req_time) W)
      (RateLimiter.requests self) in
  (forall d self',
      RateLimiter.acquire now self = (Ok (Some d), self') ->
      (0 < d)%Q /\ (d <= W)%Q
      /\ RateLimiter.max_requests self <= Z.of_nat (length kept))
  /\ (Z.of_nat (length kept) < RateLimiter.max_requests self ->
      RateLimiter.acquire now self
      = (Ok None, RateLimiter.set_requests self (kept ++ [now]))).
Proof.
  intros Hpast W kept. split; [|apply acquire_under_limit].
  intros d self' Hacq.
  apply acquire_suspends in Hacq as (oldest & Hmin & -> & Hpos & Hfull & _).
  fold W in Hmin, Hpos |- *. fold kept in Hmin, Hfull.
  split; [done|]. split; [|done].
  apply min_in in Hmin. unfold kept in Hmin.
  apply filter_In in Hmin as [Hin _]. apply Hpast in Hin. lra.
Qed.

Lemma suspension_is_bounded_witness :
  let limiter := RateLimiter.set_requests (RateLimiter.__init__ 2 60) [10; 25]%Q in
  RateLimiter.acquire 30 limiter
  = (Ok (Some 40%Q), RateLimiter.set_requests limiter [10; 25; 30]%Q)
  /\ (0 < 40)%Q /\ (40 <= inject_Z 60)%Q.
Proof.
  intros limiter. split; [vm_compute; reflexivity|].
  edestruct (suspension_is_bounded 30 limiter) as [Hbound _].
  - intros r [<-|[<-|[]]]; vm_compute; discriminate.
  - edestruct (Hbound 40%Q) as (Hpos & Hle & _);
      [vm_compute; reflexivity|]. by split.
Defined.

Lemma acquire_all_app l1 l2 self :
  acquire_all (l1 ++ l2) self
  = (fst (acquire_all l1 self) ++ fst (acquire_all l2 (snd (acquire_all l1 self))),
     snd (acquire_all l2 (snd (acquire_all l1 self)))).
Proof.
  revert self. induction l1 as [|now l1 IH]; intros self; simpl.
  - by destruct (acquire_all l2 self).
  - destruct (RateLimiter.acquire now self) as [r self1]. rewrite IH.
    destruct (acquire_all l1 self1) as [rs self2]. simpl.
    by destruct (acquire_all l2 self2).
Qed.

Lemma filter_replicate_kept (t W : Q) k :
  (0 < W)%Q ->
  List.filter (fun req_time => Qltb (t - req_time) W) (replicate k t)
  = replicate k t.
Proof.
  intros HW. induction k as [|k IH]; simpl; [done|].
  assert (Qltb (t - t) W = true) as -> by (apply Qltb_true; lra).
  by rewrite IH.
Qed.

Lemma min_replicate (t : Q) k : Py.min (replicate (S k) t) = Some t.
Proof.
  simpl. f_equal. induction k as [|k IH]; simpl; [done|].
  destruct (Qlt_le_dec t t) as [Hlt|_]; [|done]. by apply Qlt_irrefl in Hlt.
Qed.

Lemma burst_admitted (N W : Z) (t : Q) (k : nat) :
  0 < W -> Z.of_nat k <= N ->
  acquire_all (replicate k t) (RateLimiter.__init__ N W)
  = (replicate k (Ok None),
     RateLimiter.set_requests (RateLimiter.__init__ N W) (replicate k t)).
Proof.
  intros HW. assert (0 < inject_Z W)%Q as HWq.
  { unfold inject_Z, Qlt. simpl. lia. }
  induction k as [|k IH]; intros Hk; [done|].
  replace (S k) with (k + 1)%nat by lia.
  rewrite !replicate_add, acquire_all_app, IH by lia. cbn [fst snd].
  simpl acquire_all.
  rewrite (acquire_under_limit t); cbn [RateLimiter.requests
    RateLimiter.set_requests RateLimiter.window_seconds
    RateLimiter.max_requests RateLimiter.__init__];
    rewrite (filter_replicate_kept _ _ _ HWq); [done|].
  rewrite length_replicate. lia.
Qed.

(** X10. A limiter for [N] requests per window of [W] seconds, [N] and [W]
    at least one, lets a burst of [N] calls made at one instant through
    without a suspension and records each; the call after them, at the same
    instant, suspends for the whole window. *)
Theorem burst_then_block (N : nat) (W : Z) (t : Q) :
  (0 < N)%nat -> 0 < W ->
  let limiter := RateLimiter.__init__ (Z.of_nat N) W in
  let burst := acquire_all (replicate N t) limiter in
  fst burst = replicate N (Ok None)
  /\ RateLimiter.requests (snd burst) = replicate N t
  /\ exists d,
      fst (RateLimiter.acquire t (snd burst)) = Ok (Some d)
      /\ (d == inject_Z W)%Q.
Proof.
  intros HN HW limiter burst. unfold burst, limiter.
  rewrite (burst_admitted _ _ _ _ HW) by lia. cbn [fst snd].
  split; [done|]. split; [done|].
  assert (0 < inject_Z W)%Q as HWq. { unfold inject_Z, Qlt. simpl. lia. }
  unfold RateLimiter.acquire.
  cbn [RateLimiter.requests RateLimiter.set_requests
       RateLimiter.window_seconds RateLimiter.max_requests
       RateLimiter.__init__].
  rewrite (filter_replicate_kept _ _ _ HWq), length_replicate.
  destruct (Z.geb_spec (Z.of_nat N) (Z.of_nat N)); [|lia].
  destruct N as [|N]; [lia|]. rewrite min_replicate.
  assert (Qltb 0 (inject_Z W - (t - t)) = true) as ->
    by (apply Qltb_true; lra).
  eexists. split; [reflexivity|]. lra.
Qed.

Lemma burst_then_block_witness :
  let burst := acquire_all [5; 5]%Q (RateLimiter.__init__ 2 60) in
  fst burst = [Ok None; Ok None]
  /\ exists d,
      fst (RateLimiter.acquire 5 (snd burst)) = Ok (Some d)
      /\ (d == 60)%Q.
Proof.
  destruct (burst_then_block 2 60 5%Q) as (Hburst & _ & Hblock); [lia..|].
  split; [exact Hburst|exact Hblock].
Defined.

(** X11. Two degenerate limiters.  With [max_requests] zero or less, a
    call that finds no admission within the window (the first call, for
    one) raises the [ValueError] of [min] on the empty list and records
    nothing.  With a [window_seconds] of zero or less and room for one
    request, no call ever suspends, on a clock that has not run backwards:
    each call forgets every earlier admission and records its own. *)
Theorem degenerate_limiters now self :
  let W := inject_Z (RateLimiter.window_seconds self) in
  let kept :=
    List.filter (fun req_time => Qltb (now - req_time) W)
      (RateLimiter.requests self) in
  (RateLimiter.max_requests self <= 0 -> kept = [] ->
   RateLimiter.acquire now self
   = (Raise (Exception ValueError Opaque None),
      RateLimiter.set_requests self []))
  /\ (RateLimiter.window_seconds self <= 0 ->
      0 < RateLimiter.max_requests self ->
      (forall r, In r (RateLimiter.requests self) -> (r <= now)%Q) ->
      RateLimiter.acquire now self
      = (Ok None, RateLimiter.set_requests self [now])).
Proof.
  intros W kept. split.
  - intros Hmax Hkept. unfold RateLimiter.acquire.
    cbn [RateLimiter.requests RateLimiter.set_requests
         RateLimiter.window_seconds RateLimiter.max_requests].
    fold W. fold kept. rewrite Hkept. simpl.
    change (Z.of_nat 0) with 0.
    destruct (Z.geb_spec 0 (RateLimiter.max_requests self)); [done|lia].
  - intros HW Hmax Hpast.
    assert (kept = []) as Hkept.
    { unfold kept. induction (RateLimiter.requests self) as [|r l IH];
        [done|]. simpl.
      assert (Qltb (now - r) W = false) as ->.
      { apply Qltb_false. assert (r <= now)%Q by (apply Hpast; by left).
        assert (W <= 0)%Q by (unfold W, inject_Z, Qle; simpl; lia). lra. }
      apply IH. intros r' Hr'. apply Hpast. by right. }
    rewrite (acquire_under_limit now self); fold W; fold kept;
      rewrite Hkept; [done|simpl; lia].
Qed.

Lemma degenerate_limiters_witness :
  RateLimiter.acquire 0 (RateLimiter.__init__ 0 60)
  = (Raise (Exception ValueError Opaque None), RateLimiter.__init__ 0 60)
  /\ RateLimiter.acquire 9
       (RateLimiter.set_requests (RateLimiter.__init__ 1 0) [9%Q])
     = (Ok None, RateLimiter.set_requests (RateLimiter.__init__ 1 0) [9%Q]).
Proof.
  split.
  - destruct (degenerate_limiters 0 (RateLimiter.__init__ 0 60)) as [Hzero _].
    apply Hzero; [simpl; lia|reflexivity].
  - destruct (degenerate_limiters 9
                (RateLimiter.set_requests (RateLimiter.__init__ 1 0) [9%Q]))
      as [_ Hwindow].
    apply Hwindow; [simpl; lia..|].
    intros r [<-|[]]. vm_compute. discriminate.
Defined.

(** ** The request pipeline: failures and refetches *)

Lemma acquire_keeps_limits now self :
  RateLimiter.max_requests (snd (RateLimiter.acquire now self))
  = RateLimiter.max_requests self
  /\ RateLimiter.window_seconds (snd (RateLimiter.acquire now self))
     = RateLimiter.window_seconds self.
Proof.
  unfold RateLimiter.acquire. repeat case_match; done.
Qed.

(** X12. A request that misses the cache and is admitted is sent once and
    counted by the limiter whatever comes back.  Status 429 raises the
    rate-limit error, 404 the not-found error that names the endpoint, any
    other status from 400 the generic error with the status and the body
    text, and a connect error or a timeout of the transport the connection
    error with the original as context.  A request that fails stores
    nothing: the cache is as the lookup left it. *)
Theorem failed_requests_are_not_cached `{Runtime} endpoint params self w c slept rl :
  client self = Some c ->
  fst (_get_cached_data (clock w) (_get_cache_key endpoint params) self)
  = JNull ->
  RateLimiter.acquire (clock w) (rate_limiter self) = (Ok slept, rl) ->
  let request := {| via := c; url := endpoint; params := params |} in
  let answer := result_of (server w (sent w) request) in
  let r := _make_request endpoint params self w in
  sent (snd r) = sent w ++ [request]
  /\ rate_limiter (snd (fst r)) = rl
  /\ (forall e,
        fst (fst r) = Raise e ->
        cache (snd (fst r))
        = cache (snd (_get_cached_data (clock w)
                        (_get_cache_key endpoint params) self)))
  /\ (forall response,
        answer = Reply response ->
        (status_code response = 429 ->
         fst (fst r)
         = Raise (Exception APIRateLimitError
                    (Lit "API rate limit exceeded") None))
        /\ (status_code response = 404 ->
            fst (fst r)
            = Raise (Exception ModpackNotFoundError
                       (Lit ("Resource not found: " +:+ endpoint)) None))
        /\ (400 <= status_code response ->
            status_code response <> 429 -> status_code response <> 404 ->
            fst (fst r)
            = Raise (Exception ModpackServiceError
                       (Lit ("API error " +:+ pretty (status_code response)
                             +:+ ": " +:+ text response)) None)))
  /\ (forall e,
        answer = Fault e ->
        exn_class e = ConnectError \/ exn_class e = TimeoutException ->
        exists prefix,
          fst (fst r)
          = Raise (Exception APIConnectionError (Fmt prefix (str_exn e))
                     (Some e))).
Proof.
  intros Hc Hmiss Hacq request answer r. subst r.
  rewrite (make_request_miss _ _ _ _ c slept rl Hc Hmiss Hacq).
  fold request. unfold http_get. cbn [fst snd].
  rewrite server_from_option, sent_from_option. fold answer.
  split. { by rewrite receive_sent. }
  rewrite receive_eq.
  split. { destruct answer as [response|e]; [|done]. repeat case_match; done. }
  split.
  { intros e. destruct answer as [response|e']; [|done].
    repeat case_match; done. }
  split.
  - intros response ->. split; [|split].
    + intros ->. done.
    + intros ->. done.
    + intros Hge H429 H404.
      destruct (Z.eqb_spec (status_code response) 429); [done|].
      destruct (Z.eqb_spec (status_code response) 404); [done|].
      destruct (Z.geb_spec (status_code response) 400); [done|lia].
  - intros e -> [Hclass|Hclass]; unfold transport_error; rewrite Hclass;
      by eexists.
Qed.

Lemma failed_requests_are_not_cached_witness :
  let r := _make_request "/mods/7" [] direct_service
             (mock_world 0 (reply 503 JNull)) in
  fst (fst r)
  = Raise (Exception ModpackServiceError (Lit "API error 503: ") None)
  /\ length (sent (snd r)) = 1%nat
  /\ cache (snd (fst r)) = ∅.
Proof.
  intros r.
  edestruct (failed_requests_are_not_cached "/mods/7" [] direct_service
               (mock_world 0 (reply 503 JNull)))
    as (Hsent & _ & Hcache & Hstatus & _).
  - reflexivity.
  - apply fresh_service_miss.
  - reflexivity.
  - split; [|split].
    + edestruct Hstatus as (_ & _ & Hother); [reflexivity|].
      apply Hother; simpl; lia.
    + unfold r. by rewrite Hsent.
    + unfold r. erewrite Hcache; [reflexivity|]. vm_compute. reflexivity.
Defined.

(** A fetch: the request misses, is admitted and answered with a success
    status and a body that decodes to [d]. *)
Lemma fetch_stores `{Runtime} endpoint params self w c response d :
  client self = Some c ->
  0 < RateLimiter.max_requests (rate_limiter self) ->
  fst (_get_cached_data (clock w) (_get_cache_key endpoint params) self)
  = JNull ->
  result_of (server w (sent w)
               {| via := c; url := endpoint; params := params |})
  = Reply response ->
  status_code response < 400 ->
  json_body response = Some d ->
  exists self0 w1,
    _make_request endpoint params self w
    = (Ok d,
       store_at (clock w1) (_get_cache_key endpoint params) d 300 self0,
       w1)
    /\ client self0 = Some c
    /\ 0 < RateLimiter.max_requests (rate_limiter self0)
    /\ sent w1
       = sent w ++ [ {| via := c; url := endpoint; params := params |} ].
Proof.
  intros Hc Hmax Hmiss Hanswer Hstatus Hbody.
  destruct (acquire_admits (clock w) (rate_limiter self) Hmax)
    as (slept & rl & Hacq).
  rewrite (make_request_miss _ _ _ _ c slept rl Hc Hmiss Hacq).
  destruct (get_cached_frame (clock w) (_get_cache_key endpoint params) self)
    as (_ & _ & Hclient).
  unfold http_get. cbn [fst snd].
  rewrite server_from_option, sent_from_option, Hanswer.
  rewrite receive_eq.
  destruct (Z.eqb_spec (status_code response) 429); [lia|].
  destruct (Z.eqb_spec (status_code response) 404); [lia|].
  destruct (Z.geb_spec (status_code response) 400); [lia|].
  rewrite Hbody. do 2 eexists. split; [reflexivity|].
  unfold set_rate_limiter. cbn [client rate_limiter sent].
  rewrite Hclient, Hc. split; [done|]. split; [|done].
  destruct (acquire_keeps_limits (clock w) (rate_limiter self)) as [Hkeep _].
  rewrite Hacq in Hkeep. simpl in Hkeep. by rewrite Hkeep.
Qed.

(** X13. A cached response lives 300 seconds: the same request repeated
    more than 300 seconds after it was fetched misses the cache and goes to
    the upstream a second time. *)
Theorem stale_entry_is_refetched `{Runtime} endpoint params self w c response d
    (elapsed : Q) :
  client self = Some c ->
  0 < RateLimiter.max_requests (rate_limiter self) ->
  fst (_get_cached_data (clock w) (_get_cache_key endpoint params) self)
  = JNull ->
  result_of (server w (sent w)
               {| via := c; url := endpoint; params := params |})
  = Reply response ->
  status_code response < 400 ->
  json_body response = Some d ->
  (300 < elapsed)%Q ->
  let first := _make_request endpoint params self w in
  let second :=
    _make_request endpoint params (snd (fst first))
      (sleep elapsed (snd first)) in
  fst (fst first) = Ok d
  /\ sent (snd second)
     = sent w
       ++ [ {| via := c; url := endpoint; params := params |};
            {| via := c; url := endpoint; params := params |} ].
Proof.
  intros Hc Hmax Hmiss Hanswer Hstatus Hbody Hlate first second.
  destruct (fetch_stores _ _ _ _ _ _ _ Hc Hmax Hmiss Hanswer Hstatus Hbody)
    as (self0 & w1 & Hfirst & Hc0 & Hmax0 & Hsent).
  subst second first. rewrite Hfirst. cbn [fst snd]. split; [done|].
  rewrite request_goes_out with (c := c); [|done|done|].
  - cbn [sent sleep]. rewrite Hsent. by rewrite <- app_assoc.
  - rewrite (get_cached_expired _ _ _ (entry_at (clock w1) d 300));
      [done|apply lookup_cache_data|].
    cbn. unfold inject_Z. lra.
Qed.

Lemma stale_entry_is_refetched_witness :
  let first := _make_request "/mods/7" [] direct_service
                 (mock_world 0 (reply 200 one_modpack)) in
  let second := _make_request "/mods/7" [] (snd (fst first))
                  (sleep 301 (snd first)) in
  length (sent (snd second)) = 2%nat.
Proof.
  intros first second.
  assert (300 < 301)%Q as Hlate by (unfold Qlt; simpl; lia).
  destruct (stale_entry_is_refetched "/mods/7" [] direct_service
              (mock_world 0 (reply 200 one_modpack)) _ _ _ 301%Q
              eq_refl eq_refl (fresh_service_miss _ _ _) eq_refl eq_refl
              eq_refl Hlate) as [_ Hsent].
  unfold second, first. by rewrite Hsent.
Defined.

(** X14. A response whose body is the JSON [null] is stored but never
    served: the lookup returns it as [None], which reads as a miss, so the
    same request repeated at any later instant goes to the upstream
    again. *)
Theorem null_body_is_never_served `{Runtime} endpoint params self w c response
    (elapsed : Q) :
  client self = Some c ->
  0 < RateLimiter.max_requests (rate_limiter self) ->
  fst (_get_cached_data (clock w) (_get_cache_key endpoint params) self)
  = JNull ->
  result_of (server w (sent w)
               {| via := c; url := endpoint; params := params |})
  = Reply response ->
  status_code response < 400 ->
  json_body response = Some JNull ->
  let first := _make_request endpoint params self w in
  let second :=
    _make_request endpoint params (snd (fst first))
      (sleep elapsed (snd first)) in
  fst (fst first) = Ok JNull
  /\ is_Some (cache (snd (fst first)) !! _get_cache_key endpoint params)
  /\ sent (snd second)
     = sent w
       ++ [ {| via := c; url := endpoint; params := params |};
            {| via := c; url := endpoint; params := params |} ].
Proof.
  intros Hc Hmax Hmiss Hanswer Hstatus Hbody first second.
  destruct (fetch_stores _ _ _ _ _ _ _ Hc Hmax Hmiss Hanswer Hstatus Hbody)
    as (self0 & w1 & Hfirst & Hc0 & Hmax0 & Hsent).
  subst second first. rewrite Hfirst. cbn [fst snd]. split; [done|].
  split. { rewrite lookup_cache_data. by eexists. }
  rewrite request_goes_out with (c := c); [|done|done|].
  - cbn [sent sleep]. rewrite Hsent. by rewrite <- app_assoc.
  - unfold _get_cached_data. rewrite lookup_cache_data.
    by destruct (CacheEntry.is_expired _ _).
Qed.

Lemma null_body_is_never_served_witness :
  let first := _make_request "/mods/7" [] direct_service
                 (mock_world 0 (reply 200 JNull)) in
  let second := _make_request "/mods/7" [] (snd (fst first))
                  (sleep 1 (snd first)) in
  length (sent (snd second)) = 2%nat.
Proof.
  intros first second.
  destruct (null_body_is_never_served "/mods/7" [] direct_service
              (mock_world 0 (reply 200 JNull)) _ _ 1%Q
              eq_refl eq_refl (fresh_service_miss _ _ _) eq_refl eq_refl
              eq_refl) as (_ & _ & Hsent).
  unfold second, first. by rewrite Hsent.
Defined.

(** ** A service outside its context manager *)

(** X15. A service that was constructed but never entered has no session:
    every request raises the initialisation error without looking at the
    cache, the limiter or the network.  A search with a credential absorbs
    it and returns the fallback results; the detail and the version lookups
    raise it wrapped in their own [ModpackServiceError]. *)
Theorem uninitialised_service `{Runtime} self w :
  client self = None ->
  let not_initialised :=
    Exception ModpackServiceError
      (Lit "Service not initialized. Use async context manager.") None in
  (forall endpoint params,
      _make_request endpoint params self w = (Raise not_initialised, self, w))
  /\ (forall search_term category_filter sort_field sort_order page_size index,
        search_modpacks search_term category_filter sort_field sort_order
          page_size index self w
        = (Ok (fallback_modpacks search_term page_size), self, w))
  /\ (forall modpack_id,
        get_modpack_details modpack_id self w
        = (Raise (Exception ModpackServiceError
                    (Fmt "Failed to retrieve modpack details: "
                       (str_exn not_initialised))
                    (Some not_initialised)), self, w))
  /\ (forall modpack_id game_version,
        get_modpack_versions modpack_id game_version self w
        = (Raise (Exception ModpackServiceError
                    (Fmt "Failed to retrieve modpack versions: "
                       (str_exn not_initialised))
                    (Some not_initialised)), self, w)).
Proof.
  intros Hc not_initialised.
  assert (forall endpoint params,
             _make_request endpoint params self w
             = (Raise not_initialised, self, w)) as Hreq.
  { intros endpoint params. unfold _make_request. by rewrite Hc. }
  split; [exact Hreq|]. split; [|split].
  - intros search_term category_filter sort_field sort_order page_size index.
    unfold search_modpacks. destruct (is_api_available self); [|done].
    cbn [negb]. unfold search_direct. by rewrite Hreq.
  - intros modpack_id. unfold get_modpack_details. by rewrite Hreq.
  - intros modpack_id game_version. unfold get_modpack_versions.
    by rewrite Hreq.
Qed.

Lemma uninitialised_service_witness :
  search_modpacks "Better" None "Popularity" "desc" 20 0
    (__init__ (Some "key")) (mock_world 0 (reply 200 one_modpack))
  = (Ok (fallback_modpacks "Better" 20), __init__ (Some "key"),
     mock_world 0 (reply 200 one_modpack)).
Proof.
  destruct (uninitialised_service (__init__ (Some "key"))
              (mock_world 0 (reply 200 one_modpack)) eq_refl)
    as (_ & Hsearch & _).
  apply Hsearch.
Defined.

(** ** The direct search: filter and empty answers *)

Section DirectSearch.
Context `{Runtime}.

Lemma str_in_spec x l : str_in x l = true <-> In x l.
Proof.
  unfold str_in. rewrite existsb_exists. split.
  - intros (y & Hy & ->%String.eqb_eq). done.
  - intros Hx. exists x. by rewrite String.eqb_refl.
Qed.

Lemma search_item_passes category_filter mod_data modpack :
  search_item category_filter mod_data = Ok (Some modpack) ->
  passes category_filter modpack.
Proof.
  unfold search_item, passes.
  intros (m & _ & Hm)%result_bind_ok.
  destruct category_filter as [cf|]; [|done].
  destruct (String.eqb_spec cf "") as [->|Hne]; [by left|].
  cbn [negb andb] in Hm.
  destruct (str_in _ _) eqn:Hin; [|done]. injection Hm as <-.
  apply str_in_spec, in_map_iff in Hin as (category & Hlower & Hin).
  right. by exists category.
Qed.

Lemma search_loop_passes category_filter items modpacks :
  search_loop category_filter items = Ok modpacks ->
  Forall (passes category_filter) modpacks.
Proof.
  revert modpacks. induction items as [|mod_data items IH];
    intros modpacks; cbn [search_loop].
  - intros [= <-]. constructor.
  - destruct (search_item category_filter mod_data) as [[modpack|]|e] eqn:Hit.
    + intros (ms & Hms & [= <-])%result_bind_ok. constructor; [|by apply IH].
      by apply (search_item_passes _ mod_data).
    + apply IH.
    + intros (_ & _ & Hms)%result_bind_ok. by apply IH.
Qed.

(** X16. The category filter is applied to what the upstream returned,
    after normalization: every record of a direct search has a category
    whose name and the filter are the same once [str.lower] has folded
    both (the whole name, not a part of it).  The empty string filters
    nothing, as no filter does. *)
Theorem category_filter_is_exact search_term category_filter sort_field
    sort_order page_size index self w modpacks self' w' :
  search_direct search_term category_filter sort_field sort_order page_size
    index self w = (Ok modpacks, self', w') ->
  Forall (passes category_filter) modpacks
  /\ search_direct search_term (Some "") sort_field sort_order page_size
       index self w
     = search_direct search_term None sort_field sort_order page_size
         index self w.
Proof.
  intros Hdirect. split.
  - unfold search_direct in Hdirect.
    destruct (_make_request _ _ self w) as [[r self1] w1].
    injection Hdirect as Hloop _ _.
    apply result_bind_ok in Hloop as (response & _ & Hloop).
    apply result_bind_ok in Hloop as (data & _ & Hloop).
    apply result_bind_ok in Hloop as (items & _ & Hloop).
    by apply (search_loop_passes _ items).
  - unfold search_direct.
    destruct (_make_request _ _ self w) as [[r self1] w1]. f_equal. f_equal.
    destruct r as [response|e]; [|done]. cbn [result_bind].
    destruct (get response "data" (JArr [])) as [data|e]; [|done].
    cbn [result_bind]. destruct (iter data) as [items|e]; [|done].
    cbn [result_bind]. induction items as [|mod_data items IH]; [done|].
    cbn [search_loop]. rewrite IH.
    assert (search_item (Some "") mod_data = search_item None mod_data) as ->;
      [|done].
    unfold search_item.
    by destruct (_parse_modpack_search_result mod_data).
Qed.

(** X17. An upstream answer without records is an empty result, not a
    failure: when the response has an empty [data] list, or no [data] at
    all, a search with a credential returns the empty sequence and not the
    fallback suggestions.  A [data] that is null is a failure of the direct
    attempt, and the search returns the fallback suggestions. *)
Theorem no_records_is_not_a_failure search_term category_filter sort_field
    sort_order page_size index self w fields self' w' :
  is_api_available self = true ->
  _make_request "/mods/search"
    (search_params search_term sort_field sort_order page_size index) self w
  = (Ok (JObj fields), self', w') ->
  let search :=
    search_modpacks search_term category_filter sort_field sort_order
      page_size index self w in
  (assoc "data" fields = None \/ assoc "data" fields = Some (JArr []) ->
   search = (Ok [], self', w'))
  /\ (assoc "data" fields = Some JNull ->
      search = (Ok (fallback_modpacks search_term page_size), self', w')).
Proof.
  intros Hkey Hreq search. subst search.
  rewrite (search_after_request _ _ _ _ _ _ _ _ _ _ _ Hkey Hreq).
  cbn [result_bind get]. split.
  - by intros [-> | ->].
  - by intros ->.
Qed.

End DirectSearch.

Lemma category_filter_is_exact_witness :
  let batch :=
    JObj [("data",
           JArr [JObj [("id", JNum 7); ("name", JStr "Skyfactory");
                       ("categories", JArr [JObj [("name", JStr Energie)]])];
                 JObj [("id", JNum 8); ("name", JStr "Vault Hunters");
                       ("categories",
                        JArr [JObj [("name", JStr "Energie")]])];
                 JObj [("id", JNum 9); ("name", JStr "RLCraft");
                       ("categories",
                        JArr [JObj [("name", JStr (Energie +:+ "s"))]])]])] in
  let run :=
    @search_direct accent_runtime "" (Some energie) "Popularity" "desc" 20 0
      direct_service (mock_world 0 (reply 200 batch)) in
  map ModpackSearchResult.id (returned run) = [7]
  /\ Forall (@passes accent_runtime (Some energie)) (returned run).
Proof.
  intros batch run. split; [vm_compute; reflexivity|].
  destruct (@category_filter_is_exact accent_runtime "" (Some energie)
              "Popularity" "desc" 20 0
              direct_service (mock_world 0 (reply 200 batch))
              (returned run) (snd (fst run)) (snd run)) as [Hpass _].
  - vm_compute. reflexivity.
  - exact Hpass.
Defined.

Lemma no_records_is_not_a_failure_witness :
  fst (fst (search_modpacks "Better" None "Popularity" "desc" 20 0
              direct_service
              (mock_world 0 (reply 200 (JObj [("data", JArr [])])))))
  = Ok [].
Proof.
  set (w := mock_world 0 (reply 200 (JObj [("data", JArr [])]))).
  set (x := _make_request "/mods/search"
              (search_params "Better" "Popularity" "desc" 20 0)
              direct_service w).
  destruct (no_records_is_not_a_failure "Better" None "Popularity" "desc" 20 0
              direct_service w [("data", JArr [])] (snd (fst x)) (snd x))
    as [Hempty _].
  - reflexivity.
  - vm_compute. reflexivity.
  - rewrite Hempty; [reflexivity|by right].
Defined.

(** ** Detail records *)

Lemma result_bind_raise {A B} (r : result A) (k : A -> result B) e :
  result_bind r k = Raise e ->
  r = Raise e \/ exists a, r = Ok a /\ k a = Raise e.
Proof. destruct r as [a|e']; simpl; [by eauto|]. intros [= ->]. by left. Qed.

Section Details.
Context `{Runtime}.

Lemma subscript_raises d k e : subscript d k = Raise e -> builtin_error e.
Proof.
  unfold builtin_error. destruct d; simpl; try (intros [= <-]; simpl; tauto).
  destruct (assoc k items); [done|]. intros [= <-]. simpl. tauto.
Qed.

Lemma get_raises d k dflt e : get d k dflt = Raise e -> builtin_error e.
Proof.
  unfold builtin_error. destruct d; simpl; try done;
    intros [= <-]; simpl; tauto.
Qed.

Lemma iter_raises v e : iter v = Raise e -> builtin_error e.
Proof.
  unfold builtin_error. destruct v; simpl; try done;
    intros [= <-]; simpl; tauto.
Qed.

Lemma item0_raises v e : item0 v = Raise e -> builtin_error e.
Proof.
  unfold builtin_error. destruct v as [| | |s|l|l]; simpl;
    try (intros [= <-]; simpl; tauto).
  - destruct s; [|done]. intros [= <-]. simpl. tauto.
  - destruct l; [|done]. intros [= <-]. simpl. tauto.
Qed.

Lemma traverse_raises {A B} (f : A -> result B) l e :
  (forall x e', f x = Raise e' -> builtin_error e') ->
  traverse f l = Raise e -> builtin_error e.
Proof.
  intros Hf. induction l as [|x l IH]; simpl; [done|].
  intros [Hx|(y & _ & [Hl|(ys & _ & [=])]%result_bind_raise)]%result_bind_raise.
  - by apply (Hf x).
  - by apply IH.
Qed.

Lemma pluck_raises d key field e :
  pluck d key field = Raise e -> builtin_error e.
Proof.
  unfold pluck.
  intros [Hg|(xs & _ & [Hi|(ys & _ & Ht)]%result_bind_raise)]%result_bind_raise.
  - by apply get_raises in Hg.
  - by apply iter_raises in Hi.
  - apply traverse_raises in Ht; [done|]. intros x e'. apply get_raises.
Qed.

Lemma logo_of_raises d e : logo_of d = Raise e -> builtin_error e.
Proof.
  unfold logo_of. intros [Hg|(logo & _ & Hg)]%result_bind_raise;
    by apply get_raises in Hg.
Qed.

Lemma parse_date_raises v e : parse_date v = Raise e -> builtin_error e.
Proof.
  unfold builtin_error, parse_date. destruct v; simpl;
    try (intros [= <-]; simpl; tauto).
  destruct (fromisoformat _); [done|]. intros [= <-]. simpl. tauto.
Qed.

Lemma date_modified_raises d e :
  date_modified d = Raise e -> builtin_error e.
Proof.
  unfold date_modified. intros [Hg|(c & _ & Hrest)]%result_bind_raise.
  - by apply get_raises in Hg.
  - destruct (truthy c); [|done].
    apply result_bind_raise in Hrest
      as [Hs|(v & _ & [Hd|(dt & _ & [=])]%result_bind_raise)].
    + by apply subscript_raises in Hs.
    + by apply parse_date_raises in Hd.
Qed.

Lemma latest_index_raises d field e :
  latest_index d field = Raise e -> builtin_error e.
Proof.
  unfold latest_index.
  intros [Hg|(l & _ & [Hi|(x & _ & Hg)]%result_bind_raise)]%result_bind_raise.
  - by apply get_raises in Hg.
  - by apply item0_raises in Hi.
  - by apply get_raises in Hg.
Qed.

Lemma validated_raises {A} (o : option A) e :
  validated o = Raise e -> builtin_error e.
Proof.
  unfold builtin_error. destruct o; simpl; [done|]. intros [= <-].
  simpl. tauto.
Qed.

(** The detail normalizer raises exceptions of the interpreter and of the
    validation only, none of the service's own. *)
Lemma parse_details_raises mod_data e :
  _parse_modpack_details mod_data = Raise e -> builtin_error e.
Proof.
  unfold _parse_modpack_details. intros Hraise.
  repeat lazymatch type of Hraise with
    | result_bind _ _ = Raise _ =>
        apply result_bind_raise in Hraise as [Hraise|(? & _ & Hraise)]
    end;
    eauto using subscript_raises, get_raises, pluck_raises, logo_of_raises,
      date_modified_raises, latest_index_raises, validated_raises.
Qed.
End Details.

Lemma builtin_is_not_not_found e :
  builtin_error e -> exn_class e <> ModpackNotFoundError.
Proof.
  unfold builtin_error. intros Hin Heq. rewrite Heq in Hin. simpl in Hin.
  intuition discriminate.
Qed.

Section DetailRecords.
Context `{Runtime}.

(** X18. A record the detail normalizer accepts is accepted by the search
    normalizer too, and the eight fields the two models share hold the same
    values. *)
Theorem details_extend_the_search_record mod_data d :
  _parse_modpack_details mod_data = Ok d ->
  exists m,
    _parse_modpack_search_result mod_data = Ok m /\
    ModpackSearchResult.id m = ModpackDetails.id d /\
    ModpackSearchResult.name m = ModpackDetails.name d /\
    ModpackSearchResult.summary m = ModpackDetails.summary d /\
    ModpackSearchResult.download_count m = ModpackDetails.download_count d /\
    ModpackSearchResult.categories m = ModpackDetails.categories d /\
    ModpackSearchResult.authors m = ModpackDetails.authors d /\
    ModpackSearchResult.logo_url m = ModpackDetails.logo_url d /\
    ModpackSearchResult.last_updated m = ModpackDetails.last_updated d.
Proof.
  unfold _parse_modpack_details, _parse_modpack_search_result.
  destruct (subscript mod_data "id") as [id|]; [simpl|done].
  destruct (subscript mod_data "name") as [name|]; [simpl|done].
  destruct (get mod_data "summary" _) as [summary|]; [simpl|done].
  destruct (get mod_data "description" _) as [description|]; [simpl|done].
  destruct (get mod_data "downloadCount" _) as [download_count|];
    [simpl|done].
  destruct (pluck mod_data "categories" "name") as [categories|];
    [simpl|done].
  destruct (pluck mod_data "authors" "name") as [authors|]; [simpl|done].
  destruct (logo_of mod_data) as [logo_url|]; [simpl|done].
  destruct (pluck mod_data "screenshots" "url") as [screenshots|];
    [simpl|done].
  destruct (date_modified mod_data) as [last_updated|]; [simpl|done].
  destruct (latest_index mod_data "gameVersion") as [gv|]; [simpl|done].
  destruct (latest_index mod_data "modLoader") as [ml|]; [simpl|done].
  destruct (validate_int id) as [id'|]; [simpl|done].
  destruct (validate_str name) as [name'|]; [simpl|done].
  destruct (validate_str summary) as [summary'|]; [simpl|done].
  destruct (validate_str description) as [description'|]; [simpl|done].
  destruct (validate_int download_count) as [count'|]; [simpl|done].
  destruct (validate_strs categories) as [categories'|]; [simpl|done].
  destruct (validate_strs authors) as [authors'|]; [simpl|done].
  destruct (validate_opt_str logo_url) as [logo'|]; [simpl|done].
  destruct (validate_strs screenshots) as [screenshots'|]; [simpl|done].
  destruct (validate_opt_str gv) as [gv'|]; [simpl|done].
  destruct (validate_opt_str ml) as [ml'|]; [simpl|done].
  intros [= <-]. eexists. split; [reflexivity|]. simpl. tauto.
Qed.

(** X19. The detail lookup raises exceptions of two kinds only.  A
    [ModpackNotFoundError] always comes from the upstream: the request
    itself raised it, or the response carries no record.  Everything else
    is a [ModpackServiceError] whose text and context are those of its
    cause, and a record that does not parse is among these causes. *)
Theorem details_raise_two_classes modpack_id self w e self' w' :
  get_modpack_details modpack_id self w = (Raise e, self', w') ->
  let request :=
    _make_request ("/mods/" +:+ pretty modpack_id) [] self w in
  (exn_class e = ModpackNotFoundError /\
   (request = (Raise e, self', w') \/
    exists response mod_data,
      request = (Ok response, self', w') /\
      get response "data" JNull = Ok mod_data /\
      truthy mod_data = false /\
      e = Exception ModpackNotFoundError
            (Lit ("Modpack " +:+ pretty modpack_id +:+ " not found")) None))
  \/
  (exists cause,
     e = Exception ModpackServiceError
           (Fmt "Failed to retrieve modpack details: " (str_exn cause))
           (Some cause) /\
     exn_class cause <> ModpackNotFoundError /\
     (request = (Raise cause, self', w') \/
      exists response,
        request = (Ok response, self', w') /\
        (get response "data" JNull = Raise cause \/
         exists mod_data,
           get response "data" JNull = Ok mod_data /\
           truthy mod_data = true /\
           _parse_modpack_details mod_data = Raise cause))).
Proof.
  intros Hrun request. subst request. revert Hrun.
  unfold get_modpack_details.
  destruct (_make_request _ _ self w) as [[r self1] w1].
  assert (Hwrap : forall cause,
    exn_class cause <> ModpackNotFoundError ->
    match exn_class cause with
    | ModpackNotFoundError => (@Raise ModpackDetails.t cause, self1, w1)
    | _ =>
        (Raise (Exception ModpackServiceError
                  (Fmt "Failed to retrieve modpack details: "
                     (str_exn cause)) (Some cause)), self1, w1)
    end = (Raise e, self', w') ->
    e = Exception ModpackServiceError
          (Fmt "Failed to retrieve modpack details: " (str_exn cause))
          (Some cause) /\ self1 = self' /\ w1 = w').
  { intros cause Hcls. destruct (exn_class cause); try done;
      by intros [= <- <- <-]. }
  destruct r as [response|cause]; simpl.
  - destruct (get response "data" JNull) as [mod_data|cause] eqn:Hdata;
      simpl.
    + destruct (truthy mod_data) eqn:Htruthy; simpl.
      * destruct (_parse_modpack_details mod_data) as [d|cause] eqn:Hparse;
          [done|].
        assert (Hcls : exn_class cause <> ModpackNotFoundError).
        { by apply builtin_is_not_not_found, (parse_details_raises mod_data). }
        intros (-> & <- & <-)%Hwrap; [|done].
        right. exists cause. repeat split; [done|].
        right. exists response. split; [done|]. right. by exists mod_data.
      * intros [= <- <- <-]. left. split; [done|]. right.
        by exists response, mod_data.
    + assert (Hcls : exn_class cause <> ModpackNotFoundError).
      { by apply builtin_is_not_not_found,
          (get_raises response "data" JNull). }
      intros (-> & <- & <-)%Hwrap; [|done].
      right. exists cause. repeat split; [done|].
      right. exists response. split; [done|]. by left.
  - assert (Hdec : exn_class cause = ModpackNotFoundError \/
                   exn_class cause <> ModpackNotFoundError).
    { destruct (exn_class cause); (by left) || (by right). }
    destruct Hdec as [Hcls|Hcls].
    + rewrite Hcls. intros [= <- <- <-]. left. split; [done|]. by left.
    + intros (-> & <- & <-)%Hwrap; [|done].
      right. exists cause. repeat split; [done|]. by left.
Qed.


End DetailRecords.

Lemma details_extend_the_search_record_witness :
  exists m,
    _parse_modpack_search_result detailed_modpack = Ok m /\
    ModpackSearchResult.name m = "Skyfactory" /\
    ModpackSearchResult.categories m = ["Tech"] /\
    ModpackSearchResult.last_updated m
    = Some {| aware := true; micros := 1704067200000000 |}.
Proof.
  destruct (_parse_modpack_details detailed_modpack) as [d|e] eqn:Hd;
    [|vm_compute in Hd; discriminate].
  destruct (details_extend_the_search_record detailed_modpack d Hd)
    as (m & Hm & _ & Hname & _ & _ & Hcategories & _ & _ & Hupdated).
  exists m. rewrite Hname, Hcategories, Hupdated.
  vm_compute in Hd. injection Hd as <-. by repeat split.
Defined.

Lemma details_raise_two_classes_witness :
  match
    fst (fst (get_modpack_details 999999999 direct_service
                (mock_world 0 (reply 404 JNull))))
  with
  | Ok _ => False
  | Raise e => exn_class e = ModpackNotFoundError
  end.
Proof.
  destruct (get_modpack_details 999999999 direct_service
              (mock_world 0 (reply 404 JNull)))
    as [[[d|e] self'] w'] eqn:Hrun;
    [vm_compute in Hrun; discriminate|].
  destruct (details_raise_two_classes _ _ _ _ _ _ Hrun)
    as [[Hcls _]|(cause & Hwrapped & _)]; [exact Hcls|].
  vm_compute in Hrun. injection Hrun as <- _ _. discriminate.
Defined.


(** ** The popular and the recently updated lists *)

Lemma listing_cache_key sort_field limit :
  _get_cache_key "/mods/search" (search_params "" sort_field "desc" limit 0)
  = "/mods/search" +:+ "?" +:+
    ("categoryId" +:+ "=" +:+ pretty MODPACK_CATEGORY_ID) +:+ "&" +:+
    ("gameId" +:+ "=" +:+ pretty MINECRAFT_GAME_ID) +:+ "&" +:+
    ("index" +:+ "=" +:+ pretty 0) +:+ "&" +:+
    ("pageSize" +:+ "=" +:+ pretty (Z.min limit 50)) +:+ "&" +:+
    ("sortField" +:+ "=" +:+ sort_field) +:+ "&" +:+
    "sortOrder" +:+ "=" +:+ "desc".
Proof. reflexivity. Qed.

(** X21. Without a credential the popular and the recently updated lists
    are one and the same: the slice of the built-in catalog up to
    [limit], in the order of the catalog, unsorted.  With a credential the two
    send requests that are cached under different keys, whatever the
    limit, so neither list is ever served from the other's entry. *)
Theorem popular_and_recent_lists `{Runtime} limit :
  (forall self w,
     is_api_available self = false ->
     get_popular_modpacks limit self w
     = (Ok (imap synthetic (slice_to limit popular_modpacks)), self, w)
     /\ get_recently_updated_modpacks limit self w
        = get_popular_modpacks limit self w)
  /\ _get_cache_key "/mods/search"
       (search_params "" "TotalDownloads" "desc" limit 0)
     <> _get_cache_key "/mods/search"
          (search_params "" "LastUpdated" "desc" limit 0).
Proof.
  split.
  - intros self w Hkey.
    unfold get_popular_modpacks, get_recently_updated_modpacks,
      search_modpacks.
    by rewrite Hkey.
  - rewrite !listing_cache_key. intros Heq.
    repeat apply (inj (String.app _)) in Heq.
    vm_compute in Heq. discriminate.
Qed.

Lemma popular_and_recent_lists_witness :
  fst (fst (get_recently_updated_modpacks 2 (__init__ None)
              (mock_world 0 (reply 200 one_modpack))))
  = Ok (imap synthetic (take 2 popular_modpacks)).
Proof.
  destruct (popular_and_recent_lists 2) as [Hsame _].
  destruct (Hsame (__init__ None) (mock_world 0 (reply 200 one_modpack))
              eq_refl) as [Hpopular ->].
  rewrite Hpopular. reflexivity.
Defined.

(** ** Dates that cannot be compared *)

Lemma comparable_same_awareness versions v1 v2 :
  comparable versions = true ->
  v1 ∈ versions -> v2 ∈ versions ->
  aware (ModpackVersion.file_date v1) = aware (ModpackVersion.file_date v2).
Proof.
  destruct versions as [|v rest]; [by intros _ ?%elem_of_nil|].
  simpl. intros Hall. rewrite forallb_forall in Hall.
  assert (Hv : forall x, x ∈ v :: rest ->
    aware (ModpackVersion.file_date x) = aware (ModpackVersion.file_date v)).
  { intros x [->|Hx]%elem_of_cons; [done|].
    apply list_elem_of_In, Hall in Hx. by apply Bool.eqb_prop in Hx. }
  intros H1 H2. by rewrite (Hv v1 H1), (Hv v2 H2).
Qed.

(** X22. The files of a modpack are sorted by their dates after they have
    been normalized one by one, and a date with an offset cannot be
    compared with one without.  When the normalized files include one of
    each kind the sort raises, and the whole lookup fails with a
    [ModpackServiceError] whose context is the [TypeError]: no file is
    returned, although every file was normalized on its own. *)
Theorem mixed_dates_fail_the_batch `{Runtime} modpack_id game_version self w
    response items versions v1 v2 self' w' :
  _make_request ("/mods/" +:+ pretty modpack_id +:+ "/files")
    (versions_params game_version) self w = (Ok response, self', w') ->
  get response "data" (JArr []) = Ok (JArr items) ->
  versions_loop items = Ok versions ->
  v1 ∈ versions -> v2 ∈ versions ->
  aware (ModpackVersion.file_date v1) = true ->
  aware (ModpackVersion.file_date v2) = false ->
  get_modpack_versions modpack_id game_version self w
  = (Raise (Exception ModpackServiceError
              (Fmt "Failed to retrieve modpack versions: " Opaque)
              (Some (Exception TypeError Opaque None))), self', w').
Proof.
  intros Hreq Hdata Hloop H1 H2 Haware Hnaive.
  assert (Hmixed : comparable versions = false).
  { destruct (comparable versions) eqn:Hcmp; [|done].
    pose proof (comparable_same_awareness _ _ _ Hcmp H1 H2) as Hsame.
    congruence. }
  assert (Hitems : truthy (JArr items) = true).
  { destruct items; [|done]. simpl in Hloop. injection Hloop as <-.
    by apply elem_of_nil in H1. }
  unfold get_modpack_versions. rewrite Hreq. cbn [result_bind].
  rewrite Hdata. cbn [result_bind]. rewrite Hitems. cbn [negb iter result_bind].
  rewrite Hloop. cbn [result_bind]. unfold sort_versions.
  by rewrite Hmixed.
Qed.

Lemma mixed_dates_fail_the_batch_witness :
  fst (fst (@get_modpack_versions offsetless_runtime 7 None direct_service
              (mock_world 0 (reply 200 (JObj [("data", JArr mixed_files)])))))
  = Raise (Exception ModpackServiceError
             (Fmt "Failed to retrieve modpack versions: " Opaque)
             (Some (Exception TypeError Opaque None))).
Proof.
  set (w := mock_world 0 (reply 200 (JObj [("data", JArr mixed_files)]))).
  set (x := _make_request ("/mods/" +:+ pretty 7 +:+ "/files")
              (versions_params None) direct_service w).
  destruct (@versions_loop offsetless_runtime mixed_files)
    as [versions|e] eqn:Hloop; [|vm_compute in Hloop; discriminate].
  pose proof Hloop as Hfiles. vm_compute in Hfiles.
  injection Hfiles as Hfiles.
  rewrite (@mixed_dates_fail_the_batch offsetless_runtime 7 None
             direct_service w (JObj [("data", JArr mixed_files)])
             mixed_files versions
             {| ModpackVersion.id := 2;
                ModpackVersion.display_name := "release";
                ModpackVersion.file_name := "pack.zip";
                ModpackVersion.file_date :=
                  {| aware := true; micros := 1706745600000000 |};
                ModpackVersion.download_url := "";
                ModpackVersion.game_versions := [];
                ModpackVersion.mod_loader := None;
                ModpackVersion.file_size := 0 |}
             {| ModpackVersion.id := 1;
                ModpackVersion.display_name := "release";
                ModpackVersion.file_name := "pack.zip";
                ModpackVersion.file_date :=
                  {| aware := false; micros := 1704067200000000 |};
                ModpackVersion.download_url := "";
                ModpackVersion.game_versions := [];
                ModpackVersion.mod_loader := None;
                ModpackVersion.file_size := 0 |}
             (snd (fst x)) (snd x)).
  - reflexivity.
  - vm_compute. reflexivity.
  - reflexivity.
  - exact Hloop.
  - rewrite <- Hfiles. apply list_elem_of_further, list_elem_of_here.
  - rewrite <- Hfiles. apply list_elem_of_here.
  - reflexivity.
  - reflexivity.
Defined.

(** ** Page sizes *)

Lemma search_params_capped search_term sort_field sort_order page_size index :
  50 <= page_size ->
  search_params search_term sort_field sort_order page_size index
  = search_params search_term sort_field sort_order 50 index.
Proof. intros Hsize. unfold search_params. by rewrite Z.min_r. Qed.

Lemma fallback_modpacks_whole `{Runtime} search_term page_size :
  50 <= page_size ->
  fallback_modpacks search_term page_size
  = imap synthetic (search_fallback_modpacks search_term).
Proof.
  intros Hsize. unfold fallback_modpacks, slice_to.
  assert (Hlen : (length (search_fallback_modpacks search_term) <= 8)%nat).
  { unfold search_fallback_modpacks.
    destruct (negb (String.eqb search_term "")); [|vm_compute; lia].
    etrans; [apply List.filter_length_le|]. vm_compute. lia. }
  destruct (Z.leb_spec 0 page_size) as [_|]; [|lia].
  f_equal. apply take_ge. lia.
Qed.

(** X23. A page size of 50 or more is a page size of 50: the request that
    goes out asks for 50 records, and searches that differ only in such a
    page size behave alike in every respect, sharing the response in the
    cache.  The built-in catalog is shorter than 50, so the same holds
    when the search falls back. *)
Theorem page_size_is_capped `{Runtime} search_term category_filter sort_field
    sort_order page_size page_size' index :
  50 <= page_size -> 50 <= page_size' ->
  assoc "pageSize"
    (search_params search_term sort_field sort_order page_size index)
  = Some (PInt 50)
  /\ _get_cache_key "/mods/search"
       (search_params search_term sort_field sort_order page_size index)
     = _get_cache_key "/mods/search"
         (search_params search_term sort_field sort_order page_size' index)
  /\ forall self w,
       search_modpacks search_term category_filter sort_field sort_order
         page_size index self w
       = search_modpacks search_term category_filter sort_field sort_order
           page_size' index self w.
Proof.
  intros Hsize Hsize'. split; [|split].
  - by rewrite search_params_capped.
  - by rewrite (search_params_capped _ _ _ page_size),
      (search_params_capped _ _ _ page_size').
  - intros self w. unfold search_modpacks, search_direct.
    by rewrite (search_params_capped _ _ _ page_size),
      (search_params_capped _ _ _ page_size'),
      (fallback_modpacks_whole _ page_size),
      (fallback_modpacks_whole _ page_size').
Qed.

Lemma page_size_is_capped_witness :
  search_modpacks "sky" None "Popularity" "desc" 50 0 direct_service
    (mock_world 0 (reply 200 one_modpack))
  = search_modpacks "sky" None "Popularity" "desc" 200 0 direct_service
      (mock_world 0 (reply 200 one_modpack)).
Proof.
  destruct (page_size_is_capped "sky" None "Popularity" "desc" 50 200 0)
    as (_ & _ & Hsame); [lia|lia|].
  apply Hsame.
Defined.

(** ** What a call leaves unchanged *)

Lemma get_cached_keeps now key self :
  api_key (snd (_get_cached_data now key self)) = api_key self
  /\ client (snd (_get_cached_data now key self)) = client self
  /\ rate_limiter (snd (_get_cached_data now key self)) = rate_limiter self.
Proof. unfold _get_cached_data. by repeat case_match. Qed.

Lemma receive_keeps `{Runtime} endpoint key out self w :
  api_key (snd (fst (receive endpoint key out self w))) = api_key self
  /\ client (snd (fst (receive endpoint key out self w))) = client self.
Proof. rewrite receive_eq. by repeat case_match. Qed.

Lemma make_request_frame `{Runtime} endpoint params self w :
  one_request_at_most self w (_make_request endpoint params self w).
Proof.
  unfold one_request_at_most, _make_request.
  destruct (client self) as [c|] eqn:Hclient;
    [|cbn [fst snd]; repeat split; auto].
  destruct (get_cached_keeps (clock w) (_get_cache_key endpoint params) self)
    as (Hkey & Hc & _).
  destruct (_get_cached_data _ _ self) as [cached self1].
  cbn [snd] in Hkey, Hc.
  destruct (negb (is_None cached)).
  { cbn [fst snd]. rewrite Hkey, Hc, Hclient. auto. }
  destruct (RateLimiter.acquire _ _) as [[slept|e] rl].
  - cbn [http_get].
    destruct (receive_keeps endpoint (_get_cache_key endpoint params)
                (result_of
                   (server (from_option (fun d => sleep d w) w slept)
                      (sent (from_option (fun d => sleep d w) w slept))
                      {| via := c; url := endpoint; params := params |}))
                (set_rate_limiter self1 rl)
                {| clock :=
                     (clock (from_option (fun d => sleep d w) w slept)
                      + latency
                          (server (from_option (fun d => sleep d w) w slept)
                             (sent (from_option (fun d => sleep d w) w slept))
                             {| via := c; url := endpoint;
                                params := params |}))%Q;
                   server := server (from_option (fun d => sleep d w) w slept);
                   sent :=
                     sent (from_option (fun d => sleep d w) w slept)
                     ++ [{| via := c; url := endpoint; params := params |}]
                |}) as [Hkey' Hc'].
    rewrite receive_sent, Hkey', Hc'. cbn [api_key client server sent
      set_rate_limiter].
    rewrite Hkey, Hc, Hclient, server_from_option, sent_from_option.
    repeat split. right.
    by exists {| via := c; url := endpoint; params := params |}.
  - cbn [fst snd api_key client set_rate_limiter].
    rewrite Hkey, Hc, Hclient. auto.
Qed.

(** X24. Every operation of the service keeps the credential and the
    session it was entered with, and sends at most one request, through
    that session; what was sent before stays on record in its order. *)
Theorem one_request_per_call `{Runtime} self w :
  (forall endpoint params,
     one_request_at_most self w (_make_request endpoint params self w))
  /\ (forall search_term category_filter sort_field sort_order page_size index,
        one_request_at_most self w
          (search_modpacks search_term category_filter sort_field sort_order
             page_size index self w))
  /\ (forall modpack_id,
        one_request_at_most self w (get_modpack_details modpack_id self w))
  /\ (forall modpack_id game_version,
        one_request_at_most self w
          (get_modpack_versions modpack_id game_version self w))
  /\ (forall limit,
        one_request_at_most self w (get_popular_modpacks limit self w))
  /\ (forall limit,
        one_request_at_most self w
          (get_recently_updated_modpacks limit self w)).
Proof.
  assert (Hsearch :
    forall search_term category_filter sort_field sort_order page_size index,
      one_request_at_most self w
        (search_modpacks search_term category_filter sort_field sort_order
           page_size index self w)).
  { intros search_term category_filter sort_field sort_order page_size index.
    pose proof (make_request_frame "/mods/search"
                  (search_params search_term sort_field sort_order page_size
                     index) self w) as Hframe.
    unfold search_modpacks, search_direct.
    destruct (negb (is_api_available self)).
    { unfold one_request_at_most. cbn [fst snd]. auto. }
    destruct (_make_request _ _ self w) as [[r self1] w1].
    by destruct (let? response := r in _). }
  split; [intros; apply make_request_frame|]. split; [exact Hsearch|].
  split; [|split; [|split]].
  - intros modpack_id.
    pose proof (make_request_frame ("/mods/" +:+ pretty modpack_id) []
                  self w) as Hframe.
    unfold get_modpack_details.
    destruct (_make_request _ _ self w) as [[r self1] w1].
    destruct (let? response := r in _) as [d|e]; [done|].
    by destruct (exn_class e).
  - intros modpack_id game_version.
    pose proof (make_request_frame
                  ("/mods/" +:+ pretty modpack_id +:+ "/files")
                  (versions_params game_version) self w) as Hframe.
    unfold get_modpack_versions.
    destruct (_make_request _ _ self w) as [[r self1] w1].
    by destruct (let? response := r in _).
  - intros limit. apply Hsearch.
  - intros limit. apply Hsearch.
Qed.

Lemma one_request_per_call_witness :
  let run :=
    get_modpack_details 7 direct_service
      (mock_world 0 (reply 200 no_latest_files)) in
  api_key (snd (fst run)) = Some "key"
  /\ (length (sent (snd run)) <= 1)%nat.
Proof.
  destruct (one_request_per_call direct_service
              (mock_world 0 (reply 200 no_latest_files)))
    as (_ & _ & Hdetails & _).
  destruct (Hdetails 7) as (Hkey & _ & _ & Hsent).
  split; [exact Hkey|].
  destruct Hsent as [Hsent|(req & _ & Hsent)]; cbv zeta; rewrite Hsent;
    simpl; lia.
Defined.

(** ** A service made by [create_modpack_service] *)

Lemma receive_keeps_limiter `{Runtime} endpoint key out self w :
  rate_limiter (snd (fst (receive endpoint key out self w)))
  = rate_limiter self.
Proof. rewrite receive_eq. by repeat case_match. Qed.

(** X25. [create_modpack_service] returns a service that is ready: it has
    a session for the CurseForge address with a timeout of 30 seconds,
    whose [x-api-key] header is the credential when that is a non-empty
    string and is missing otherwise, and its first request, whatever it
    asks for, is sent at once through that session, without a suspension
    by the limiter, which records it at the time of the call. *)
Theorem created_service_is_ready `{Runtime} credential endpoint params w :
  let self := create_modpack_service credential in
  let run := _make_request endpoint params self w in
  exists c,
    client self = Some c
    /\ base_url c = BASE_URL
    /\ timeout c = 30%Q
    /\ assoc "x-api-key" (headers c)
       = match credential with
         | Some k => if String.eqb k "" then None else Some k
         | None => None
         end
    /\ let request := {| via := c; url := endpoint; params := params |} in
       sent (snd run) = sent w ++ [request]
       /\ clock (snd run) = (clock w + latency (server w (sent w) request))%Q
       /\ RateLimiter.requests (rate_limiter (snd (fst run))) = [clock w].
Proof.
  intros self run. subst run.
  destruct (client self) as [c|] eqn:Hclient; [|done].
  exists c. split; [done|].
  assert (Hc : base_url c = BASE_URL /\ timeout c = 30%Q
               /\ assoc "x-api-key" (headers c)
                  = match credential with
                    | Some k => if String.eqb k "" then None else Some k
                    | None => None
                    end).
  { injection Hclient as <-. cbn [base_url timeout headers].
    split; [done|]. split; [done|].
    unfold api_key_truthy. cbn [api_key __init__].
    destruct credential as [k|]; [|done].
    by destruct (String.eqb k ""). }
  destruct Hc as (Hurl & Htimeout & Hheader).
  split; [done|]. split; [done|]. split; [done|].
  cbv zeta.
  rewrite (make_request_miss endpoint params self w c None
             (RateLimiter.set_requests (rate_limiter self) [clock w]));
    [|done|apply fresh_service_miss|by apply acquire_under_limit].
  rewrite receive_sent, receive_keeps_limiter. done.
Qed.
